(** * Project consultant: the state-merge reducer and the conversation
      orchestrator of [src/index.tsx]

    The application keeps three pieces of React state in [App]: the project
    document, the chat history and the loading flag.  One conversational turn
    is [handleSendMessage]: it appends the user's message, awaits the LLM
    gateway, and merges the structured update into the project through the
    updater passed to [setProject].

    Embedding.
    - A JS string is a [string] holding its UTF-8 encoding; [===] on
      strings is exact equality of the character sequences
      ([String.eqb]).
    - The progress and the integers of a gateway answer, which the schema
      declares INTEGER, are [Z].  The priority totals are JS numbers that
      the code only ever adds to: integer-valued doubles, the two
      infinities and NaN ([JsNumber]), added as IEEE-754 does.
    - An optional JSON field is an [option]; [x || d] is written out by its
      truthiness rule for the type of [x].
    - [generateId()] and [new Date().toISOString()] read the outside world;
      they are oracles of an environment [Env], indexed by the number of
      calls made so far, and the call counters are threaded through the
      state.
    - [await] splits [handleSendMessage] into the part that runs before the
      gateway call is issued and the part that runs when it settles.
    - [localStorage] is a finite map from keys to texts; [JSON.stringify]
      and [JSON.parse] on the stored documents are the two halves of a
      [Codec].

    The second part of the file covers the rest of [App]: project
    creation, reset, the persistence effects and the load at mount. *)

From Stdlib Require Import ZArith String Ascii Lia DecimalString DecimalNat.
From stdpp Require Import base list strings gmap.

Set Warnings "-register-all".

Local Open Scope string_scope.
Local Open Scope list_scope.

(** ** Data model (lines 9-60) *)

Inductive TaskStatus := NotStarted | InProgress | Completed | Blocked.

Module Task.
Inductive t := mk {
  id : string;
  name : string;
  description : string;
  status : TaskStatus;
  subtasks : list t
}.
End Task.

Module Stakeholder.
Record t := mk { name : string; role : string; contact : string }.
End Stakeholder.

Module Blocker.
Record t := mk { id : string; description : string; resolved : bool }.
End Blocker.

Inductive ResourceType := Tool | Library | Documentation | HumanResource.

Module Resource.
Record t := mk {
  name : string;
  type : ResourceType;
  url : option string;
  description : string
}.
End Resource.

(** A JS number whose value is an integer, an infinity or NaN.  A finite
    value that a double can hold satisfies [isDouble] below. *)
Inductive JsNumber :=
| Finite (z : Z)
| Infinity (negative : bool)
| NaN.

Record Priorities := { speed : JsNumber; scope : JsNumber }.

Record Timeline := { startDate : string; targetDate : string }.

Record Project := {
  projectName : string;
  projectType : string;
  projectGoals : list string;
  tasks : list Task.t;
  progress : Z;
  priorities : Priorities;
  stakeholders : list Stakeholder.t;
  timeline : Timeline;
  blockers : list Blocker.t;
  resources : list Resource.t;
  suggestedActions : list string
}.

Inductive Sender := user | ai.

Record ChatMessage := { sender : Sender; text : string; timestamp : string }.

(** ** The gateway's structured update ([nextStepSchema], lines 100-148) *)

Inductive Action := add | remove | update | complete.

Module TaskUpdate.
Record t := mk {
  taskId : option string;
  name : string;
  description : option string;
  status : option TaskStatus;
  action : Action
}.
End TaskUpdate.

Module PriorityUpdate.
Record t := mk { speed : option Z; scope : option Z }.
End PriorityUpdate.

Module BlockerEntry.
Record t := mk { description : string }.
End BlockerEntry.

Module Update.
Record t := mk {
  responseText : string;
  suggestedActions : list string;
  progressUpdate : option Z;
  priorityUpdate : option PriorityUpdate.t;
  blockers : option (list BlockerEntry.t);
  taskUpdates : option (list TaskUpdate.t)
}.
End Update.

(** ** The outside world *)

(** [generateId env k] is what the [k]-th call of [generateId()] (line 152)
    returns, [toISOString env k] what the [k]-th reading of the clock
    returns. *)
Record Env := {
  generateId : nat -> string;
  toISOString : nat -> string
}.

(** ** JavaScript operators used by the reducer *)

(** [s || d] on strings: the empty string is falsy. *)
Definition strOr (s d : string) : string :=
  match s with
  | EmptyString => d
  | _ => s
  end.

(** [o || d] where [o] is an optional string field. *)
Definition optStrOr (o : option string) (d : string) : string :=
  match o with
  | Some s => strOr s d
  | None => d
  end.

(** [o || d] where [o] is an optional status: the four status strings are
    all non-empty, hence truthy. *)
Definition optStatusOr (o : option TaskStatus) (d : TaskStatus) : TaskStatus :=
  match o with
  | Some s => s
  | None => d
  end.

(** [o || 0] where [o] is an optional integer: [undefined], [null] and [0]
    all give [0]. *)
Definition numOr0 (o : option Z) : Z :=
  match o with
  | Some z => z
  | None => 0%Z
  end.

(** The multiple of [2^e] nearest to [a], the one with the even quotient
    when [a] lies half-way between two of them. *)
Definition roundToEven (a e : Z) : Z :=
  let q := (a / 2 ^ e)%Z in
  let r := (a mod 2 ^ e)%Z in
  if (2 * r <? 2 ^ e)%Z then (q * 2 ^ e)%Z
  else if (2 ^ e <? 2 * r)%Z then ((q + 1) * 2 ^ e)%Z
  else if Z.even q then (q * 2 ^ e)%Z
  else ((q + 1) * 2 ^ e)%Z.

(** The double nearest to the integer [z] (round to nearest, ties to
    even): [z] itself up to [2^53] in magnitude; beyond, a double in
    [[2^k, 2^(k+1))] is a multiple of [2^(k-52)]; from [2^1024] on the
    result is an infinity.  This is what [JSON.parse] gives for an integer
    literal and what an addition gives for its exact sum. *)
Definition toDouble (z : Z) : JsNumber :=
  let a := Z.abs z in
  if (a <=? 2 ^ 53)%Z then Finite z
  else
    let m := roundToEven a (Z.log2 a - 52) in
    if (2 ^ 1024 <=? m)%Z then Infinity (z <? 0)%Z
    else Finite (Z.sgn z * m).

(** [x + y] on such numbers. *)
Definition jsAdd (x y : JsNumber) : JsNumber :=
  match x, y with
  | NaN, _ | _, NaN => NaN
  | Infinity a, Infinity b => if Bool.eqb a b then Infinity a else NaN
  | Infinity a, Finite _ | Finite _, Infinity a => Infinity a
  | Finite a, Finite b => toDouble (a + b)
  end.

(** The values a JS number can hold. *)
Definition isDouble (x : JsNumber) : Prop :=
  match x with
  | Finite z => toDouble z = Finite z
  | _ => True
  end.

(** [Array.prototype.findIndex]; [None] stands for the result [-1]. *)
Fixpoint findIndex {A : Type} (p : A -> bool) (l : list A) : option nat :=
  match l with
  | [] => None
  | x :: l' => if p x then Some 0 else option_map S (findIndex p l')
  end.

(** ** Task reconciliation (lines 590-618) *)

(** [t.id === taskUpdate.taskId]: an absent [taskId] is [undefined], which
    is strictly equal to no string. *)
Definition idMatches (u : TaskUpdate.t) (t : Task.t) : bool :=
  match TaskUpdate.taskId u with
  | Some i => String.eqb (Task.id t) i
  | None => false
  end.

(** [t.name === taskUpdate.name] *)
Definition nameMatches (u : TaskUpdate.t) (t : Task.t) : bool :=
  String.eqb (Task.name t) (TaskUpdate.name u).

(** The predicate of line 593:
    [t => t.id === taskUpdate.taskId || t.name === taskUpdate.name]. *)
Definition matchesUpdate (u : TaskUpdate.t) (t : Task.t) : bool :=
  idMatches u t || nameMatches u t.

(** [existingTaskIndex] of line 593. *)
Definition existingTaskIndex (newTasks : list Task.t) (u : TaskUpdate.t)
  : option nat :=
  findIndex (matchesUpdate u) newTasks.

(** The object pushed at lines 597-603. *)
Definition newTask (newId : string) (u : TaskUpdate.t) : Task.t :=
  {| Task.id := newId;
     Task.name := TaskUpdate.name u;
     Task.description := optStrOr (TaskUpdate.description u) "";
     Task.status := optStatusOr (TaskUpdate.status u) NotStarted;
     Task.subtasks := [] |}.

(** The object built at lines 609-614: the spread keeps [id] and
    [subtasks]. *)
Definition patchTask (u : TaskUpdate.t) (old : Task.t) : Task.t :=
  {| Task.id := Task.id old;
     Task.name := strOr (TaskUpdate.name u) (Task.name old);
     Task.description :=
       optStrOr (TaskUpdate.description u) (Task.description old);
     Task.status := optStatusOr (TaskUpdate.status u) (Task.status old);
     Task.subtasks := Task.subtasks old |}.

(** The body of the [forEach] callback of lines 592-617.  The state is the
    number of [generateId()] calls made so far and [newTasks].
    [splice(i, 1)] is [delete i]; the assignment [newTasks[i] = ...] is
    [alter], whose index comes from [findIndex] and is therefore in range. *)
Definition applyTaskUpdate (env : Env) (st : nat * list Task.t)
    (u : TaskUpdate.t) : nat * list Task.t :=
  let (k, newTasks) := st in
  let existingTaskIndex := existingTaskIndex newTasks u in
  match TaskUpdate.action u with
  | add =>
      match existingTaskIndex with
      | None => (S k, newTasks ++ [newTask (generateId env k) u])
      | Some _ => (k, newTasks)
      end
  | other =>
      match existingTaskIndex with
      | Some i =>
          match other with
          | remove => (k, delete i newTasks)
          | _ => (* update or complete *)
              (k, alter (patchTask u) i newTasks)
          end
      | None => (k, newTasks)
      end
  end.

(** [if (update.taskUpdates) update.taskUpdates.forEach(...)] *)
Definition applyTaskUpdates (env : Env) (k : nat) (prevTasks : list Task.t)
    (us : option (list TaskUpdate.t)) : nat * list Task.t :=
  match us with
  | Some l => fold_left (applyTaskUpdate env) l (k, prevTasks)
  | None => (k, prevTasks)
  end.

(** ** Blockers (lines 622-631) *)

Definition pushBlocker (env : Env) (st : nat * list Blocker.t)
    (b : BlockerEntry.t) : nat * list Blocker.t :=
  let (k, newBlockers) := st in
  (S k, newBlockers ++
        [ {| Blocker.id := generateId env k;
             Blocker.description := BlockerEntry.description b;
             Blocker.resolved := false |} ]).

Definition applyBlockers (env : Env) (k : nat) (prevBlockers : list Blocker.t)
    (bs : option (list BlockerEntry.t)) : nat * list Blocker.t :=
  match bs with
  | Some l => fold_left (pushBlocker env) l (k, prevBlockers)
  | None => (k, prevBlockers)
  end.

(** ** The reducer: the updater passed to [setProject] (lines 587-644) *)

(** The progress is computed on [Z]: rounding to a double is monotone and
    leaves 0 and 100 alone, so clamping the rounded sum gives what
    clamping the exact sum gives.  The priority totals are not clamped and
    are added as doubles. *)

Definition applyUpdate (env : Env) (k : nat) (prevProject : Project)
    (upd : Update.t) : nat * Project :=
  let (k1, newTasks) :=
    applyTaskUpdates env k (tasks prevProject) (Update.taskUpdates upd) in
  let newProgress :=
    Z.max 0 (Z.min 100 (progress prevProject
                        + numOr0 (Update.progressUpdate upd))) in
  let (k2, newBlockers) :=
    applyBlockers env k1 (blockers prevProject) (Update.blockers upd) in
  (k2,
   {| projectName := projectName prevProject;
      projectType := projectType prevProject;
      projectGoals := projectGoals prevProject;
      tasks := newTasks;
      progress := newProgress;
      priorities :=
        match Update.priorityUpdate upd with
        | Some pu =>
            {| speed := jsAdd (speed (priorities prevProject))
                          (toDouble (numOr0 (PriorityUpdate.speed pu)));
               scope := jsAdd (scope (priorities prevProject))
                          (toDouble (numOr0 (PriorityUpdate.scope pu))) |}
        | None => priorities prevProject
        end;
      stakeholders := stakeholders prevProject;
      timeline := timeline prevProject;
      blockers := newBlockers;
      resources := resources prevProject;
      suggestedActions := Update.suggestedActions upd |}).

(** [if (!prevProject) return null;] in front of the reducer. *)
Definition projectUpdater (env : Env) (k : nat) (prevProject : option Project)
    (upd : Update.t) : nat * option Project :=
  match prevProject with
  | None => (k, None)
  | Some p => let (k', p') := applyUpdate env k p upd in (k', Some p')
  end.

(** ** Conversation orchestrator (lines 486-671) *)

(** The React state of [App] (lines 487-489), together with what the model
    has to remember of the outside world: how many gateway calls are
    pending, and how often the clock and [generateId()] have been read. *)
Record Session := {
  project : option Project;
  chatHistory : list ChatMessage;
  isLoading : bool;
  inFlight : nat;
  clockReads : nat;
  idCalls : nat
}.

(** How the awaited gateway call of lines 579-585 settles: the call or
    [JSON.parse] throws, or [result.consultancyUpdate] is obtained.  The
    code takes the parsed answer as it is; nothing checks it against
    [nextStepSchema]. *)
Inductive GatewayResult :=
| LlmFailure
| LlmSuccess (upd : Update.t).

Definition apologyText : string :=
  "Sorry, I encountered an error. Please try again.".

(** [handleSendMessage], lines 564-583: everything up to the point where
    the gateway request has been issued and the handler is suspended. *)
Definition handleSendMessage_request (env : Env) (s : Session)
    (message : string) : Session :=
  match project s with
  | None => s
  | Some _ =>
      let userMessage :=
        {| sender := user; text := message;
           timestamp := toISOString env (clockReads s) |} in
      let updatedChatHistory := chatHistory s ++ [userMessage] in
      {| project := project s;
         chatHistory := updatedChatHistory;
         isLoading := true;
         inFlight := S (inFlight s);
         clockReads := S (clockReads s);
         idCalls := idCalls s |}
  end.

(** [handleSendMessage], lines 584-663: the continuation that runs when
    the awaited call settles; the [finally] clause clears the flag on both
    paths. *)
Definition handleSendMessage_settle (env : Env) (s : Session)
    (r : GatewayResult) : Session :=
  match r with
  | LlmSuccess upd =>
      let (k', project') := projectUpdater env (idCalls s) (project s) upd in
      let aiMessage :=
        {| sender := ai; text := Update.responseText upd;
           timestamp := toISOString env (clockReads s) |} in
      {| project := project';
         chatHistory := chatHistory s ++ [aiMessage];
         isLoading := false;
         inFlight := pred (inFlight s);
         clockReads := S (clockReads s);
         idCalls := k' |}
  | LlmFailure =>
      let errMessage :=
        {| sender := ai; text := apologyText;
           timestamp := toISOString env (clockReads s) |} in
      {| project := project s;
         chatHistory := chatHistory s ++ [errMessage];
         isLoading := false;
         inFlight := pred (inFlight s);
         clockReads := S (clockReads s);
         idCalls := idCalls s |}
  end.

(** One whole turn: request, then settlement with [r]. *)
Definition handleSendMessage (env : Env) (s : Session) (message : string)
    (r : GatewayResult) : Session :=
  match project s with
  | None => s
  | Some _ =>
      handleSendMessage_settle env (handleSendMessage_request env s message) r
  end.

(** [String.prototype.trim] strips from both ends the code points of
    WhiteSpace and LineTerminator: U+0009 to U+000D, U+0020, U+00A0,
    U+1680, U+2000 to U+200A, U+2028, U+2029, U+202F, U+205F, U+3000 and
    U+FEFF.  In UTF-8 the first six are one byte each. *)
Definition isWhiteSpace (c : ascii) : bool :=
  let n := nat_of_ascii c in
  ((9 <=? n)%nat && (n <=? 13)%nat) || (n =? 32)%nat.

(** U+00A0 is C2 A0. *)
Definition isWhiteSpace2 (c1 c2 : ascii) : bool :=
  (nat_of_ascii c1 =? 194)%nat && (nat_of_ascii c2 =? 160)%nat.

(** U+1680 is E1 9A 80; U+2000 to U+200A are E2 80 80 to E2 80 8A;
    U+2028, U+2029 and U+202F are E2 80 A8, E2 80 A9 and E2 80 AF;
    U+205F is E2 81 9F; U+3000 is E3 80 80; U+FEFF is EF BB BF. *)
Definition isWhiteSpace3 (c1 c2 c3 : ascii) : bool :=
  let n1 := nat_of_ascii c1 in
  let n2 := nat_of_ascii c2 in
  let n3 := nat_of_ascii c3 in
  ((n1 =? 225) && (n2 =? 154) && (n3 =? 128))%nat
  || ((n1 =? 226)%nat && (n2 =? 128)%nat
      && (((128 <=? n3) && (n3 <=? 138))%nat
          || (n3 =? 168)%nat || (n3 =? 169)%nat || (n3 =? 175)%nat))
  || ((n1 =? 226) && (n2 =? 129) && (n3 =? 159))%nat
  || ((n1 =? 227) && (n2 =? 128) && (n3 =? 128))%nat
  || ((n1 =? 239) && (n2 =? 187) && (n3 =? 191))%nat.

Fixpoint trimStart (s : string) : string :=
  match s with
  | String c1 s1 =>
      if isWhiteSpace c1 then trimStart s1
      else
        match s1 with
        | String c2 s2 =>
            if isWhiteSpace2 c1 c2 then trimStart s2
            else
              match s2 with
              | String c3 s3 =>
                  if isWhiteSpace3 c1 c2 c3 then trimStart s3 else s
              | EmptyString => s
              end
        | EmptyString => s
        end
  | EmptyString => EmptyString
  end.

(** What is left when the white space at the end has been stripped: the
    string up to the point from where on there is only white space. *)
Fixpoint trimEnd (s : string) : string :=
  match s with
  | String c s' =>
      match trimStart s with
      | EmptyString => EmptyString
      | _ => String c (trimEnd s')
      end
  | EmptyString => EmptyString
  end.

Definition trim (s : string) : string := trimEnd (trimStart s).

(** [handleSend] of [ActionPanel] (lines 384-389):
    [if (message.trim() && !isLoading) onSendMessage(message.trim())]. *)
Definition handleSend (env : Env) (s : Session) (message : string) : Session :=
  match trim message with
  | EmptyString => s
  | trimmed =>
      if negb (isLoading s) then handleSendMessage_request env s trimmed
      else s
  end.

(** [handleSuggestedSend] of [ActionPanel] (lines 391-395). *)
Definition handleSuggestedSend (env : Env) (s : Session) (action : string)
  : Session :=
  if negb (isLoading s) then handleSendMessage_request env s action else s.

(** The template literal of line 669. *)
Definition completedMessage (taskName : string) : string :=
  ("I have just completed the task: " ++ String (ascii_of_nat 34) taskName
   ++ String (ascii_of_nat 34) ".")%string.

(** [handleTaskStatusChange] (lines 666-671);
    [project?.tasks.find(t => t.id === taskId)] is [undefined] when there
    is no project or no such task. *)
Definition handleTaskStatusChange (env : Env) (s : Session)
    (taskId : string) (status : TaskStatus) : Session :=
  let task :=
    match project s with
    | Some p => List.find (fun t => String.eqb (Task.id t) taskId) (tasks p)
    | None => None
    end in
  match task, status with
  | Some task, Completed =>
      handleSendMessage_request env s (completedMessage (Task.name task))
  | _, _ => s
  end.

(** What can happen to a session: the three user controls of the
    consultancy screen, and the settlement of a pending gateway call. *)
Inductive Event :=
| ManualSend (message : string)
| SuggestedClick (action : string)
| MarkCompletedClick (taskId : string)
| GatewaySettles (r : GatewayResult).

(** The "Mark as Completed" button of [TaskItem] (line 316) calls
    [onStatusChange(task.id, 'Completed')].  A settlement can only happen
    to a pending call: with none pending the event changes nothing. *)
Definition step (env : Env) (s : Session) (e : Event) : Session :=
  match e with
  | ManualSend message => handleSend env s message
  | SuggestedClick action => handleSuggestedSend env s action
  | MarkCompletedClick taskId => handleTaskStatusChange env s taskId Completed
  | GatewaySettles r =>
      match inFlight s with
      | O => s
      | S _ => handleSendMessage_settle env s r
      end
  end.

Definition run (env : Env) (s : Session) (es : list Event) : Session :=
  fold_left (step env) es s.


(** The events that go through a control which tests the loading flag. *)
Definition guardedControl (e : Event) : bool :=
  match e with
  | MarkCompletedClick _ => false
  | _ => true
  end.

(** The loading flag and the number of pending requests agree. *)
Definition flagCountsRequests (s : Session) : Prop :=
  inFlight s = if isLoading s then 1 else 0.

(** ** A gateway failure as the specification words it *)



(** ** The resolution rule as the specification words it *)

(** "Resolve target task by matching taskId against existing task id, OR
    (if no id match) matching name against existing task name": a search by
    id over the whole list first, and a search by name only when the first
    one finds nothing.  This definition follows the specification, not the
    source; it is here to be compared with [existingTaskIndex]. *)
Definition specResolveTarget (newTasks : list Task.t) (u : TaskUpdate.t)
  : option nat :=
  match findIndex (idMatches u) newTasks with
  | Some i => Some i
  | None => findIndex (nameMatches u) newTasks
  end.

(** ** Concrete data for the examples *)

Definition natString (n : nat) : string :=
  NilEmpty.string_of_uint (Nat.to_uint n).

Definition demoEnv : Env :=
  {| generateId := fun k => ("id_" ++ natString k)%string;
     toISOString := fun k => ("2024-01-01T00:00:0" ++ natString k ++ "Z")%string |}.

Definition taskDesign : Task.t :=
  Task.mk "t1" "Design" "Draw the screens" NotStarted [].

Definition taskBuild : Task.t :=
  Task.mk "t2" "Build" "Write the code" InProgress [].

Definition demoProject : Project :=
  {| projectName := "Recipe App";
     projectType := "Mobile App";
     projectGoals := ["search"; "favorites"];
     tasks := [taskDesign; taskBuild];
     progress := 95;
     priorities := {| speed := Finite 3; scope := Finite (-2) |};
     stakeholders := [];
     timeline := {| startDate := "2024-01-01T00:00:00Z"; targetDate := "" |};
     blockers := [Blocker.mk "b0" "No designer" false];
     resources := [];
     suggestedActions := ["Start designing"] |}.

Definition demoSession : Session :=
  {| project := Some demoProject;
     chatHistory := [ {| sender := ai; text := "Welcome";
                         timestamp := "2024-01-01T00:00:00Z" |} ];
     isLoading := false;
     inFlight := 0;
     clockReads := 0;
     idCalls := 0 |}.

(** An entry whose [taskId] is the id of the second task and whose [name]
    is the name of the first one. *)
Definition crossedEntry : TaskUpdate.t :=
  TaskUpdate.mk (Some "t2") "Design" None (Some Completed) complete.

Definition patchEntry : TaskUpdate.t :=
  TaskUpdate.mk None "Design" None (Some InProgress) update.

Definition addEntry : TaskUpdate.t :=
  TaskUpdate.mk (Some "Test") "Test" None None add.


Definition emptyUpdate : Update.t :=
  Update.mk "Noted." [] None None None None.

Definition speedUpdate (d : Z) : Update.t :=
  Update.mk "Noted." [] None (Some (PriorityUpdate.mk (Some d) None)) None None.

Definition progressUpdateOf (d : Z) : Update.t :=
  Update.mk "Noted." [] (Some d) None None None.

Definition blockersUpdate : Update.t :=
  Update.mk "Noted." ["Ask the vendor"] (Some 0%Z) None
    (Some [BlockerEntry.mk "API key missing"; BlockerEntry.mk "No test devices"])
    (Some [addEntry]).

Definition withPriorities (p : Project) (v : Priorities) : Project :=
  {| projectName := projectName p;
     projectType := projectType p;
     projectGoals := projectGoals p;
     tasks := tasks p;
     progress := progress p;
     priorities := v;
     stakeholders := stakeholders p;
     timeline := timeline p;
     blockers := blockers p;
     resources := resources p;
     suggestedActions := suggestedActions p |}.

Definition withProgress (p : Project) (v : Z) : Project :=
  {| projectName := projectName p;
     projectType := projectType p;
     projectGoals := projectGoals p;
     tasks := tasks p;
     progress := v;
     priorities := priorities p;
     stakeholders := stakeholders p;
     timeline := timeline p;
     blockers := blockers p;
     resources := resources p;
     suggestedActions := suggestedActions p |}.

(** ** State setters *)

(** [setProject(v)], [setChatHistory(v)] and [setIsLoading(v)] with a plain
    value. *)
Definition setProject (s : Session) (v : option Project) : Session :=
  {| project := v;
     chatHistory := chatHistory s;
     isLoading := isLoading s;
     inFlight := inFlight s;
     clockReads := clockReads s;
     idCalls := idCalls s |}.

Definition setChatHistory (s : Session) (v : list ChatMessage) : Session :=
  {| project := project s;
     chatHistory := v;
     isLoading := isLoading s;
     inFlight := inFlight s;
     clockReads := clockReads s;
     idCalls := idCalls s |}.

Definition setIsLoading (s : Session) (v : bool) : Session :=
  {| project := project s;
     chatHistory := chatHistory s;
     isLoading := v;
     inFlight := inFlight s;
     clockReads := clockReads s;
     idCalls := idCalls s |}.

(** ** Project creation (lines 445-450 and 523-562) *)

(** The response of the creation call ([projectCreationSchema],
    lines 63-98). *)
Module InitialTask.
Record t := mk { name : string; description : string }.
End InitialTask.

Module NewProjectData.
Record t := mk {
  projectName : string;
  projectType : string;
  projectGoals : list string;
  initialTasks : list InitialTask.t
}.
End NewProjectData.

Module CreationResult.
Record t := mk {
  project : NewProjectData.t;
  openingStatement : string;
  suggestedActions : list string
}.
End CreationResult.

(** How the awaited creation call of lines 527-533 settles. *)
Inductive CreationOutcome :=
| CreationFailure
| CreationSuccess (result : CreationResult.t).

(** Line 539: [initialTasks.map(task => ({ ...task, id: generateId(),
    status: 'Not Started', subtasks: [] }))]; the callback runs on the
    elements from left to right, one [generateId()] call each. *)
Fixpoint mapInitialTasks (env : Env) (k : nat) (l : list InitialTask.t)
  : nat * list Task.t :=
  match l with
  | [] => (k, [])
  | task :: l' =>
      let t :=
        {| Task.id := generateId env k;
           Task.name := InitialTask.name task;
           Task.description := InitialTask.description task;
           Task.status := NotStarted;
           Task.subtasks := [] |} in
      let (k', ts) := mapInitialTasks env (S k) l' in
      (k', t :: ts)
  end.

(** [handleCreateProject], line 524: what runs before the creation call is
    issued.  The three arguments only go into the prompt. *)
Definition handleCreateProject_request (s : Session)
    (name type goals : string) : Session :=
  setIsLoading s true.

(** [handleCreateProject], lines 534-561: the continuation.  The clock is
    read for [timeline.startDate] and then for the opening message. *)
Definition handleCreateProject_settle (env : Env) (s : Session)
    (r : CreationOutcome) : Session :=
  match r with
  | CreationSuccess result =>
      let newProjectData := CreationResult.project result in
      let (k', newTasks) :=
        mapInitialTasks env (idCalls s)
          (NewProjectData.initialTasks newProjectData) in
      let newProject :=
        {| projectName := NewProjectData.projectName newProjectData;
           projectType := NewProjectData.projectType newProjectData;
           projectGoals := NewProjectData.projectGoals newProjectData;
           tasks := newTasks;
           progress := 0;
           priorities := {| speed := Finite 0; scope := Finite 0 |};
           stakeholders := [];
           timeline := {| startDate := toISOString env (clockReads s);
                          targetDate := "" |};
           blockers := [];
           resources := [];
           suggestedActions := CreationResult.suggestedActions result |} in
      let openingMessage :=
        {| sender := ai;
           text := CreationResult.openingStatement result;
           timestamp := toISOString env (S (clockReads s)) |} in
      {| project := Some newProject;
         chatHistory := [openingMessage];
         isLoading := false;
         inFlight := inFlight s;
         clockReads := S (S (clockReads s));
         idCalls := k' |}
  | CreationFailure => setIsLoading s false
  end.

(** A string used as a condition: only the empty string is falsy. *)
Definition truthy (s : string) : bool :=
  match s with
  | EmptyString => false
  | _ => true
  end.

(** [handleSubmit] of [ProjectCreationScreen] (lines 445-450). *)
Definition handleSubmit (s : Session) (projectName projectType
    projectGoals : string) : Session :=
  if truthy projectName && truthy projectType && truthy projectGoals
  then handleCreateProject_request s projectName projectType projectGoals
  else s.

(** ** What the screens show *)

(** [project.blockers.filter(b => !b.resolved)] of [ProjectPane]
    (lines 348-352). *)
Definition visibleBlockers (p : Project) : list Blocker.t :=
  List.filter (fun b => negb (Blocker.resolved b)) (blockers p).

(** [chatHistory.slice(-4)] of line 577: the part of the history from
    index [max(length - 4, 0)] on. *)
Definition recentConversation (chatHistory : list ChatMessage)
  : list ChatMessage :=
  drop (length chatHistory - 4) chatHistory.

(** ** Persistence (lines 491-521 and 673-679) *)

(** [localStorage]: a finite map from keys to texts. *)
Abbreviation Storage := (gmap string string).

(** [JSON.stringify] and [JSON.parse] on the two documents that are
    stored; a parser returns [None] where [JSON.parse] throws. *)
Record Codec := {
  stringifyProject : Project -> string;
  parseProject : string -> option Project;
  stringifyChatHistory : list ChatMessage -> string;
  parseChatHistory : string -> option (list ChatMessage)
}.

(** The effect of lines 507-513, which depends on [project]. *)
Definition projectEffect (codec : Codec) (s : Session) (store : Storage)
  : Storage :=
  match project s with
  | Some p => <["project" := stringifyProject codec p]> store
  | None => delete "project" store
  end.

(** The effect of lines 515-521, which depends on [chatHistory]. *)
Definition chatHistoryEffect (codec : Codec) (s : Session) (store : Storage)
  : Storage :=
  match chatHistory s with
  | [] => delete "chatHistory" store
  | _ :: _ => <["chatHistory" := stringifyChatHistory codec (chatHistory s)]> store
  end.

(** Both effects, in the order of their declaration. *)
Definition persist (codec : Codec) (s : Session) (store : Storage) : Storage :=
  chatHistoryEffect codec s (projectEffect codec s store).

(** [if (saved) setter(JSON.parse(saved))]: [null] and the empty text are
    falsy; the result is [None] when [JSON.parse] throws. *)
Definition loadProject (codec : Codec) (s : Session)
    (savedProject : option string) : option Session :=
  match savedProject with
  | Some saved =>
      if truthy saved then
        match parseProject codec saved with
        | Some p => Some (setProject s (Some p))
        | None => None
        end
      else Some s
  | None => Some s
  end.

Definition loadChatHistory (codec : Codec) (s : Session)
    (savedChatHistory : option string) : option Session :=
  match savedChatHistory with
  | Some saved =>
      if truthy saved then
        match parseChatHistory codec saved with
        | Some h => Some (setChatHistory s h)
        | None => None
        end
      else Some s
  | None => Some s
  end.

(** The effect of lines 491-505, run once after the first render.  A
    setter that was called before [JSON.parse] throws has taken effect;
    the [catch] clause clears the whole storage. *)
Definition loadEffect (codec : Codec) (s : Session) (store : Storage)
  : Session * Storage :=
  let savedProject := store !! "project" in
  let savedChatHistory := store !! "chatHistory" in
  match loadProject codec s savedProject with
  | None => (s, ∅)
  | Some s1 =>
      match loadChatHistory codec s1 savedChatHistory with
      | None => (s1, ∅)
      | Some s2 => (s2, store)
      end
  end.

(** The state of [App] at its first render (lines 487-489). *)
Definition initialSession (clock ids : nat) : Session :=
  {| project := None;
     chatHistory := [];
     isLoading := false;
     inFlight := 0;
     clockReads := clock;
     idCalls := ids |}.

(** Mounting [App]: after the first render the three effects run in the
    order of their declaration, the last two on the state of that render;
    the state set by the first one is rendered next, and the two
    persistence effects run on it. *)
Definition mount (codec : Codec) (clock ids : nat) (store : Storage)
  : Session * Storage :=
  let s0 := initialSession clock ids in
  let (s1, store1) := loadEffect codec s0 store in
  let store2 := persist codec s0 store1 in
  (s1, persist codec s1 store2).

(** [handleReset] (lines 673-679); [confirmed] is the answer to
    [window.confirm]. *)
Definition handleReset (confirmed : bool) (s : Session) (store : Storage)
  : Session * Storage :=
  if confirmed then (setChatHistory (setProject s None) [], ∅)
  else (s, store).

(** ** The application as a whole *)

(** The session, the storage and the number of pending creation calls
    ([inFlight] counts the pending calls of [handleSendMessage]). *)
Record App := {
  session : Session;
  localStorage : Storage;
  creating : nat
}.

Inductive AppEvent :=
| Conversation (e : Event)
| ResetClick (confirmed : bool)
| CreateSubmit (name type goals : string)
| CreationSettles (r : CreationOutcome).

(** What the handlers do on an event, before the next render.  [App]
    renders the consultancy screen, with the reset button, when there is a
    project, and the creation form otherwise (lines 685-696); the submit
    button of the form is disabled while loading (line 479). *)
Definition dispatch (env : Env) (a : App) (ev : AppEvent) : App :=
  match ev with
  | Conversation e =>
      {| session := step env (session a) e;
         localStorage := localStorage a;
         creating := creating a |}
  | ResetClick confirmed =>
      match project (session a) with
      | Some _ =>
          let (s', store') :=
            handleReset confirmed (session a) (localStorage a) in
          {| session := s'; localStorage := store'; creating := creating a |}
      | None => a
      end
  | CreateSubmit name type goals =>
      match project (session a) with
      | None =>
          if isLoading (session a) then a
          else
            {| session := handleSubmit (session a) name type goals;
               localStorage := localStorage a;
               creating :=
                 if truthy name && truthy type && truthy goals
                 then S (creating a) else creating a |}
      | Some _ => a
      end
  | CreationSettles r =>
      match creating a with
      | O => a
      | S n =>
          {| session := handleCreateProject_settle env (session a) r;
             localStorage := localStorage a;
             creating := n |}
      end
  end.

(** An event followed by the render it causes.  A persistence effect runs
    when the value it depends on has changed; it is run here after every
    event, which makes no difference on a storage that held the texts of
    the previous state ([storageMirrors] below), where it writes again
    what is there. *)
Definition appStep (codec : Codec) (env : Env) (a : App) (ev : AppEvent)
  : App :=
  let a' := dispatch env a ev in
  {| session := session a';
     localStorage := persist codec (session a') (localStorage a');
     creating := creating a' |}.

Definition appRun (codec : Codec) (env : Env) (a : App)
    (evs : list AppEvent) : App :=
  fold_left (appStep codec env) evs a.

(** The application right after a page load on an empty storage. *)
Definition freshApp (clock ids : nat) : App :=
  {| session := initialSession clock ids;
     localStorage := ∅;
     creating := 0 |}.

(** The application right after a page load on the storage [store]. *)
Definition mountedApp (codec : Codec) (clock ids : nat) (store : Storage)
  : App :=
  {| session := (mount codec clock ids store).1;
     localStorage := (mount codec clock ids store).2;
     creating := 0 |}.

(** The storage holds the text of the project exactly when there is a
    project, and the text of the chat history exactly when it is not
    empty. *)
Definition storageMirrors (codec : Codec) (a : App) : Prop :=
  localStorage a !! "project"
    = stringifyProject codec <$> project (session a) /\
  localStorage a !! "chatHistory"
    = match chatHistory (session a) with
      | [] => None
      | _ :: _ => Some (stringifyChatHistory codec (chatHistory (session a)))
      end.

(** ** Invariants *)

(** The ids in [ids] are pairwise distinct and none of them will be
    produced by call number [k] of [generateId()] or a later one. *)
Definition FreshFrom (env : Env) (k : nat) (ids : list string) : Prop :=
  NoDup ids /\ forall j, k <= j -> generateId env j ∉ ids.

(** What holds of every project document the application builds. *)
Definition documentShape (p : Project) : Prop :=
  (0 <= progress p <= 100)%Z /\
  Forall (fun b => Blocker.resolved b = false) (blockers p) /\
  Forall (fun t => Task.subtasks t = []) (tasks p) /\
  stakeholders p = [] /\
  resources p = [] /\
  targetDate (timeline p) = "".

Definition sessionDocumentShape (s : Session) : Prop :=
  forall p, project s = Some p -> documentShape p.

Definition sessionIdsFresh (env : Env) (s : Session) : Prop :=
  forall p, project s = Some p ->
    FreshFrom env (idCalls s) (Task.id <$> tasks p) /\
    FreshFrom env (idCalls s) (Blocker.id <$> blockers p).

(** ** More concrete data *)

(** The entry [u] with another action. *)
Definition withAction (u : TaskUpdate.t) (a : Action) : TaskUpdate.t :=
  {| TaskUpdate.taskId := TaskUpdate.taskId u;
     TaskUpdate.name := TaskUpdate.name u;
     TaskUpdate.description := TaskUpdate.description u;
     TaskUpdate.status := TaskUpdate.status u;
     TaskUpdate.action := a |}.

Definition demoCreation : CreationResult.t :=
  {| CreationResult.project :=
       {| NewProjectData.projectName := "Recipe App";
          NewProjectData.projectType := "Mobile App";
          NewProjectData.projectGoals := ["search"; "favorites"];
          NewProjectData.initialTasks :=
            [ InitialTask.mk "Design" "Draw the screens";
              InitialTask.mk "Build" "Write the code";
              InitialTask.mk "Ship" "Publish the app" ] |};
     CreationResult.openingStatement := "Welcome";
     CreationResult.suggestedActions := ["Start designing"] |}.

(** A stand-in for the JSON codec that is exact on the demonstration
    documents: every document is written as a fixed text, and only the
    texts of the demonstration documents are read back. *)
Definition demoCodec : Codec :=
  {| stringifyProject := fun p => ("{project:" ++ projectName p ++ "}")%string;
     parseProject := fun saved =>
       if String.eqb saved "{project:Recipe App}" then Some demoProject
       else None;
     stringifyChatHistory := fun h => "[chat]";
     parseChatHistory := fun saved =>
       if String.eqb saved "[chat]" then Some (chatHistory demoSession)
       else None |}.

(** The demonstration session with one request pending. *)
Definition demoLoadingSession : Session :=
  handleSendMessage_request demoEnv demoSession "hello".

Definition demoApp : App :=
  {| session := demoLoadingSession;
     localStorage := persist demoCodec demoLoadingSession ∅;
     creating := 0 |}.

(** A creation, a first message and its answer, which adds a task and
    two blockers. *)
Definition demoTrace : list AppEvent :=
  [ CreateSubmit "Recipe App" "Mobile App" "search, favorites";
    CreationSettles (CreationSuccess demoCreation);
    Conversation (ManualSend "what is in the way?");
    Conversation (GatewaySettles (LlmSuccess blockersUpdate)) ].

(** A storage whose project text is not JSON, and one whose chat history
    text is not. *)
Definition corruptedProjectStore : Storage :=
  <["project" := "{project:"]> (<["theme" := "dark"]> ∅).

Definition corruptedChatStore : Storage :=
  <["chatHistory" := "[cha"]> (<["project" := "{project:Recipe App}"]> ∅).

(** ** Counting the entries of an update *)

Definition actionIs (a : Action) (u : TaskUpdate.t) : bool :=
  match a, TaskUpdate.action u with
  | add, add | remove, remove | update, update | complete, complete => true
  | _, _ => false
  end.

Definition countAction (a : Action) (us : list TaskUpdate.t) : nat :=
  length (List.filter (actionIs a) us).

(** * Properties *)

(** ** [findIndex] *)

Section FindIndex.
Context {A : Type} (p : A -> bool).

Lemma findIndex_Some l i :
  findIndex p l = Some i <->
  exists x, l !! i = Some x /\ p x = true /\
            forall j y, j < i -> l !! j = Some y -> p y = false.
Proof.
  revert i. induction l as [|a l IH]; intros i; simpl.
  - split; [discriminate | intros (x & Hx & _); discriminate].
  - destruct (p a) eqn:Ha.
    + split.
      * intros [= <-]. exists a. repeat split; auto. intros j y Hj; lia.
      * intros (x & Hx & Hpx & Hmin). destruct i as [|i]; [reflexivity|].
        specialize (Hmin 0 a ltac:(lia) eq_refl). congruence.
    + destruct (findIndex p l) as [n|] eqn:Hf; simpl.
      * split.
        -- intros [= <-]. destruct (proj1 (IH n) eq_refl) as (x & Hx & Hpx & Hmin).
           exists x. repeat split; auto.
           intros [|j] y Hj Hy; simpl in Hy; [congruence|].
           apply (Hmin j); [lia | exact Hy].
        -- intros (x & Hx & Hpx & Hmin). destruct i as [|i].
           ++ simpl in Hx. congruence.
           ++ f_equal. symmetry. cut (Some n = Some i); [congruence|].
              apply IH. exists x. repeat split; auto.
              intros j y Hj Hy. apply (Hmin (S j)); [lia | exact Hy].
      * split; [discriminate|].
        intros (x & Hx & Hpx & Hmin). destruct i as [|i].
        -- simpl in Hx. congruence.
        -- exfalso. cut (@None nat = Some i); [discriminate|].
           apply IH. exists x. repeat split; auto.
           intros j y Hj Hy. apply (Hmin (S j)); [lia | exact Hy].
Qed.

Lemma findIndex_None l :
  findIndex p l = None <-> forall x, x ∈ l -> p x = false.
Proof.
  induction l as [|a l IH]; simpl.
  - split; [intros _ x Hx; inversion Hx | reflexivity].
  - destruct (p a) eqn:Ha.
    + split; [discriminate|]. intros H.
      rewrite (H a) in Ha; [discriminate | left].
    + destruct (findIndex p l) as [n|] eqn:Hf; simpl.
      * split; [discriminate|]. intros H.
        assert (@Some nat n = None); [|discriminate].
        apply IH. intros x Hx. apply H. now right.
      * split; [|reflexivity]. intros _ x Hx.
        apply elem_of_cons in Hx as [-> | Hx]; [exact Ha|].
        now apply IH.
Qed.

Lemma findIndex_lt l i : findIndex p l = Some i -> i < length l.
Proof.
  intros H. apply findIndex_Some in H as (x & Hx & _).
  eapply lookup_lt_Some, Hx.
Qed.

Lemma findIndex_app_hit l x :
  p x = true -> exists i, findIndex p (l ++ [x]) = Some i.
Proof.
  intros Hx. destruct (findIndex p (l ++ [x])) as [i|] eqn:Hf; [eauto|].
  rewrite findIndex_None in Hf.
  rewrite Hf in Hx; [discriminate|]. apply elem_of_app. right. left.
Qed.

End FindIndex.

(** ** Resolving the target task *)

Lemma idMatches_true u t :
  idMatches u t = true <-> TaskUpdate.taskId u = Some (Task.id t).
Proof.
  unfold idMatches. destruct (TaskUpdate.taskId u) as [i|].
  - rewrite String.eqb_eq. split; congruence.
  - split; discriminate.
Qed.

Lemma nameMatches_true u t :
  nameMatches u t = true <-> Task.name t = TaskUpdate.name u.
Proof. unfold nameMatches. apply String.eqb_eq. Qed.

Lemma matchesUpdate_true u t :
  matchesUpdate u t = true <->
  TaskUpdate.taskId u = Some (Task.id t) \/ Task.name t = TaskUpdate.name u.
Proof.
  unfold matchesUpdate.
  rewrite orb_true_iff, idMatches_true, nameMatches_true. reflexivity.
Qed.

Lemma matchesUpdate_false u t :
  matchesUpdate u t = false <->
  TaskUpdate.taskId u <> Some (Task.id t) /\ Task.name t <> TaskUpdate.name u.
Proof.
  rewrite <- not_true_iff_false, matchesUpdate_true. tauto.
Qed.

Lemma existingTaskIndex_lt newTasks u i :
  existingTaskIndex newTasks u = Some i -> i < length newTasks.
Proof. apply findIndex_lt. Qed.

(** Both rules find a target for the same entries: they differ only in
    which task they pick. *)
Lemma specResolveTarget_None newTasks u :
  specResolveTarget newTasks u = None <-> existingTaskIndex newTasks u = None.
Proof.
  unfold specResolveTarget, existingTaskIndex.
  destruct (findIndex (idMatches u) newTasks) as [i|] eqn:Hid.
  - split; [discriminate|]. intros Hn. exfalso.
    apply findIndex_Some in Hid as (x & Hx & Hpx & _).
    rewrite findIndex_None in Hn.
    specialize (Hn x (list_elem_of_lookup_2 _ _ _ Hx)).
    unfold matchesUpdate in Hn. rewrite Hpx in Hn. discriminate.
  - rewrite findIndex_None in Hid. rewrite !findIndex_None. split.
    + intros Hn x Hx. unfold matchesUpdate. now rewrite Hid, Hn.
    + intros Hn x Hx. specialize (Hn x Hx). unfold matchesUpdate in Hn.
      now apply orb_false_iff in Hn.
Qed.

(** C1, as the code has it: the target of a task-update entry is the task
    at the earliest position whose id equals the entry's [taskId] or whose
    name equals the entry's [name]; equality is exact (case-sensitive)
    string equality, and an absent [taskId] equals no id.  When no task
    satisfies either test there is no target, which is also exactly when
    the id-first rule of the specification finds none. *)
Theorem existingTaskIndex_first_id_or_name (newTasks : list Task.t)
    (u : TaskUpdate.t) :
  match existingTaskIndex newTasks u with
  | Some i =>
      exists t, newTasks !! i = Some t /\
        (TaskUpdate.taskId u = Some (Task.id t) \/
         Task.name t = TaskUpdate.name u) /\
        forall j t', j < i -> newTasks !! j = Some t' ->
          TaskUpdate.taskId u <> Some (Task.id t') /\
          Task.name t' <> TaskUpdate.name u
  | None =>
      (forall t, t ∈ newTasks ->
         TaskUpdate.taskId u <> Some (Task.id t) /\
         Task.name t <> TaskUpdate.name u) /\
      specResolveTarget newTasks u = None
  end.
Proof.
  destruct (existingTaskIndex newTasks u) as [i|] eqn:Hf.
  - unfold existingTaskIndex in Hf.
    apply findIndex_Some in Hf as (t & Ht & Hp & Hmin).
    exists t. split; [exact Ht|]. split; [now apply matchesUpdate_true|].
    intros j t' Hj Ht'. apply matchesUpdate_false. now apply (Hmin j).
  - split; [|now apply specResolveTarget_None].
    intros t Ht. apply matchesUpdate_false.
    unfold existingTaskIndex in Hf. rewrite findIndex_None in Hf. now apply Hf.
Qed.

(** C1 as the specification states it fails: [crossedEntry] carries the id
    of the second task, so the id-first rule picks position 1, but the code
    picks position 0, the task that only shares the entry's name. *)
Lemma id_match_does_not_take_precedence :
  specResolveTarget [taskDesign; taskBuild] crossedEntry = Some 1 /\
  existingTaskIndex [taskDesign; taskBuild] crossedEntry = Some 0 /\
  existingTaskIndex [taskDesign; taskBuild] crossedEntry
    <> specResolveTarget [taskDesign; taskBuild] crossedEntry.
Proof.
  split; [reflexivity|]. split; [reflexivity|]. vm_compute. discriminate.
Qed.

(** Matching is case-sensitive. *)
Example existingTaskIndex_case_sensitive :
  existingTaskIndex [taskDesign; taskBuild]
    (TaskUpdate.mk None "design" None None update) = None.
Proof. reflexivity. Qed.

(** ** One task-update entry *)

Lemma strOr_nonempty s d : s <> "" -> strOr s d = s.
Proof. destruct s; [congruence | reflexivity]. Qed.

Lemma optStrOr_supplied o s d : o = Some s -> s <> "" -> optStrOr o d = s.
Proof. intros -> Hs. now apply strOr_nonempty. Qed.

Lemma optStrOr_kept o d : o = None \/ o = Some "" -> optStrOr o d = d.
Proof. intros [-> | ->]; reflexivity. Qed.

Lemma optStrOr_default_empty o : optStrOr o "" = default "" o.
Proof. destruct o as [[|c s]|]; reflexivity. Qed.

(** C5: for an entry with action [update] or [complete], a matched task
    keeps its id, its subtasks and its position; its name, description and
    status are overwritten exactly where the entry supplies a non-empty
    value and kept otherwise; every other task and the length of the list
    are unchanged.  When no task matches, the list is returned as it was.
    No id is generated either way. *)
Theorem update_entry_is_partial_patch (env : Env) (k : nat)
    (newTasks : list Task.t) (u : TaskUpdate.t) :
  TaskUpdate.action u = update \/ TaskUpdate.action u = complete ->
  match existingTaskIndex newTasks u with
  | Some i =>
      exists old new result,
        applyTaskUpdate env (k, newTasks) u = (k, result) /\
        newTasks !! i = Some old /\ result !! i = Some new /\
        Task.id new = Task.id old /\
        Task.subtasks new = Task.subtasks old /\
        (TaskUpdate.name u <> "" -> Task.name new = TaskUpdate.name u) /\
        (TaskUpdate.name u = "" -> Task.name new = Task.name old) /\
        (forall d, TaskUpdate.description u = Some d -> d <> "" ->
                   Task.description new = d) /\
        (TaskUpdate.description u = None \/ TaskUpdate.description u = Some "" ->
         Task.description new = Task.description old) /\
        (forall st, TaskUpdate.status u = Some st -> Task.status new = st) /\
        (TaskUpdate.status u = None -> Task.status new = Task.status old) /\
        (forall j, j <> i -> result !! j = newTasks !! j) /\
        length result = length newTasks
  | None => applyTaskUpdate env (k, newTasks) u = (k, newTasks)
  end.
Proof.
  intros Hact.
  assert (Hstep : applyTaskUpdate env (k, newTasks) u =
                  match existingTaskIndex newTasks u with
                  | Some i => (k, alter (patchTask u) i newTasks)
                  | None => (k, newTasks)
                  end).
  { unfold applyTaskUpdate. destruct Hact as [-> | ->]; reflexivity. }
  destruct (existingTaskIndex newTasks u) as [i|] eqn:Hidx; [|exact Hstep].
  pose proof (existingTaskIndex_lt _ _ _ Hidx) as Hlt.
  destruct (lookup_lt_is_Some_2 newTasks i Hlt) as [old Hold].
  exists old, (patchTask u old), (alter (patchTask u) i newTasks).
  split; [exact Hstep|]. split; [exact Hold|].
  split; [now rewrite list_lookup_alter_eq, Hold|].
  split; [reflexivity|]. split; [reflexivity|].
  split; [intros Hn; now apply strOr_nonempty|].
  split; [intros Hn; simpl; now rewrite Hn|].
  split; [intros d Hd Hne; now apply optStrOr_supplied|].
  split; [intros Hd; now apply optStrOr_kept|].
  split; [intros st Hst; simpl; now rewrite Hst|].
  split; [intros Hst; simpl; now rewrite Hst|].
  split; [intros j Hj; now apply list_lookup_alter_ne|].
  apply length_alter.
Qed.

(** The example of the specification: a task with a description and
    status NotStarted, patched by an update entry that names it and
    supplies only the status. *)
Lemma update_entry_is_partial_patch_witness :
  (TaskUpdate.action patchEntry = update \/
   TaskUpdate.action patchEntry = complete) /\
  exists new result,
    applyTaskUpdate demoEnv (0, [taskDesign; taskBuild]) patchEntry
      = (0, result) /\
    result !! 0 = Some new /\
    Task.id new = "t1" /\ Task.name new = "Design" /\
    Task.description new = "Draw the screens" /\
    Task.status new = InProgress /\
    result !! 1 = Some taskBuild /\ length result = 2.
Proof.
  split; [left; reflexivity|].
  pose proof (update_entry_is_partial_patch demoEnv 0 [taskDesign; taskBuild]
                patchEntry (or_introl eq_refl)) as H.
  assert (E : existingTaskIndex [taskDesign; taskBuild] patchEntry = Some 0)
    by reflexivity.
  rewrite E in H.
  destruct H as (old & new & result & Hres & Hold & Hnew & Hid & _ & Hn & _
                 & _ & Hd & Hs & _ & Hoth & Hlen).
  injection Hold as <-.
  exists new, result. split; [exact Hres|]. split; [exact Hnew|].
  split; [exact Hid|]. split; [apply Hn; discriminate|].
  split; [apply Hd; left; reflexivity|]. split; [now apply Hs|].
  split; [now rewrite Hoth|exact Hlen].
Defined.

(** C6: for an entry with action [add], a list in which some task already
    matches is returned unchanged and no id is generated; otherwise exactly
    one task is appended at the end, carrying the id produced by the next
    call of [generateId()], the entry's name, the entry's description or
    the empty string, the entry's status or NotStarted, and no subtasks.
    Applying the same entry again changes nothing more. *)
Theorem add_entry_appends_once (env : Env) (k : nat)
    (newTasks : list Task.t) (u : TaskUpdate.t) :
  TaskUpdate.action u = add ->
  match existingTaskIndex newTasks u with
  | Some _ => applyTaskUpdate env (k, newTasks) u = (k, newTasks)
  | None =>
      applyTaskUpdate env (k, newTasks) u =
        (S k,
         newTasks ++
         [ {| Task.id := generateId env k;
              Task.name := TaskUpdate.name u;
              Task.description := default "" (TaskUpdate.description u);
              Task.status := default NotStarted (TaskUpdate.status u);
              Task.subtasks := [] |} ])
  end /\
  applyTaskUpdate env (applyTaskUpdate env (k, newTasks) u) u
    = applyTaskUpdate env (k, newTasks) u.
Proof.
  intros Hact.
  assert (Hstep : forall k' l,
             applyTaskUpdate env (k', l) u =
             match existingTaskIndex l u with
             | Some _ => (k', l)
             | None => (S k', l ++ [newTask (generateId env k') u])
             end).
  { intros k' l. unfold applyTaskUpdate. rewrite Hact.
    now destruct (existingTaskIndex l u). }
  assert (Hnew : forall i, newTask i u =
             {| Task.id := i;
                Task.name := TaskUpdate.name u;
                Task.description := default "" (TaskUpdate.description u);
                Task.status := default NotStarted (TaskUpdate.status u);
                Task.subtasks := [] |}).
  { intros i. unfold newTask. rewrite optStrOr_default_empty.
    now destruct (TaskUpdate.status u). }
  rewrite (Hstep k newTasks).
  destruct (existingTaskIndex newTasks u) as [i|] eqn:Hidx.
  - split; [reflexivity|]. rewrite Hstep. now rewrite Hidx.
  - split; [now rewrite Hnew|]. rewrite Hstep.
    destruct (findIndex_app_hit (matchesUpdate u) newTasks
                (newTask (generateId env k) u)) as [i Hi].
    { apply matchesUpdate_true. right. reflexivity. }
    unfold existingTaskIndex. now rewrite Hi.
Qed.

(** An [add] entry for a name that no task carries, and the same entry
    applied a second time. *)
Lemma add_entry_appends_once_witness :
  TaskUpdate.action addEntry = add /\
  applyTaskUpdate demoEnv (0, [taskDesign; taskBuild]) addEntry =
    (1, [taskDesign; taskBuild; Task.mk "id_0" "Test" "" NotStarted []]) /\
  applyTaskUpdate demoEnv
    (applyTaskUpdate demoEnv (0, [taskDesign; taskBuild]) addEntry) addEntry
  = applyTaskUpdate demoEnv (0, [taskDesign; taskBuild]) addEntry.
Proof.
  split; [reflexivity|].
  pose proof (add_entry_appends_once demoEnv 0 [taskDesign; taskBuild]
                addEntry eq_refl) as [H1 H2].
  assert (E : existingTaskIndex [taskDesign; taskBuild] addEntry = None)
    by reflexivity.
  rewrite E in H1. split; [exact H1 | exact H2].
Defined.

(** An [add] entry whose name is already taken leaves the list alone. *)
Example add_entry_existing_name :
  applyTaskUpdate demoEnv (0, [taskDesign; taskBuild])
    (TaskUpdate.mk None "Build" (Some "again") None add)
  = (0, [taskDesign; taskBuild]).
Proof. reflexivity. Qed.

(** ** The reducer as a whole *)

(** The fields of the reducer's result, one by one. *)
Lemma applyUpdate_fields (env : Env) (k : nat) (p : Project) (u : Update.t) :
  let t := applyTaskUpdates env k (tasks p) (Update.taskUpdates u) in
  let b := applyBlockers env t.1 (blockers p) (Update.blockers u) in
  (applyUpdate env k p u).1 = b.1 /\
  tasks (applyUpdate env k p u).2 = t.2 /\
  blockers (applyUpdate env k p u).2 = b.2 /\
  progress (applyUpdate env k p u).2 =
    Z.max 0 (Z.min 100 (progress p + numOr0 (Update.progressUpdate u))) /\
  suggestedActions (applyUpdate env k p u).2 = Update.suggestedActions u.
Proof.
  unfold applyUpdate.
  destruct (applyTaskUpdates env k (tasks p) (Update.taskUpdates u)) as [k1 nt].
  simpl.
  destruct (applyBlockers env k1 (blockers p) (Update.blockers u)) as [k2 nb].
  simpl. repeat split.
Qed.

(** C4: the new progress is [max(0, min(100, p + d))] for the current
    progress [p] and the update's delta [d], a missing delta counting as 0;
    it therefore lies in [0, 100] whatever [p] and [d] are, and 95 with
    delta 20 gives 100 while 5 with delta -20 gives 0. *)
Theorem progress_is_clamped (env : Env) (k : nat) (p : Project)
    (u : Update.t) :
  progress (applyUpdate env k p u).2 =
    Z.max 0 (Z.min 100 (progress p + default 0%Z (Update.progressUpdate u))) /\
  (0 <= progress (applyUpdate env k p u).2 <= 100)%Z /\
  progress (applyUpdate env k (withProgress p 95) (progressUpdateOf 20)).2
    = 100%Z /\
  progress (applyUpdate env k (withProgress p 5) (progressUpdateOf (-20))).2
    = 0%Z.
Proof.
  assert (H : forall q v,
             progress (applyUpdate env k q v).2 =
             Z.max 0 (Z.min 100 (progress q
                                 + default 0%Z (Update.progressUpdate v)))).
  { intros q v. destruct (applyUpdate_fields env k q v) as (_ & _ & _ & Hp & _).
    rewrite Hp. now destruct (Update.progressUpdate v). }
  split; [apply H|]. split; [rewrite H; lia|].
  split; rewrite H; reflexivity.
Qed.

(** ** Blockers *)

Lemma fold_pushBlocker (env : Env) (l : list BlockerEntry.t) :
  forall k acc,
    fold_left (pushBlocker env) l (k, acc) =
    (k + length l,
     acc ++ imap (fun j b =>
                    {| Blocker.id := generateId env (k + j);
                       Blocker.description := BlockerEntry.description b;
                       Blocker.resolved := false |}) l).
Proof.
  induction l as [|b l IH]; intros k acc; simpl.
  - now rewrite Nat.add_0_r, app_nil_r.
  - rewrite IH, <- app_assoc. simpl. f_equal; [lia|].
    rewrite Nat.add_0_r. do 2 f_equal.
    apply imap_ext. intros j x _. simpl. do 2 f_equal. lia.
Qed.

(** C7: an update whose [blockers] field holds N entries appends exactly N
    blockers after the existing ones, in input order, the j-th of them with
    the id produced by the j-th following call of [generateId()], the j-th
    given description and [resolved = false]; the old list is a prefix of
    the new one, so no existing blocker is modified or removed and the list
    never gets shorter.  An absent field counts as no entries. *)
Theorem blockers_are_appended (env : Env) (k : nat) (p : Project)
    (u : Update.t) :
  let entries := default [] (Update.blockers u) in
  let k1 := (applyTaskUpdates env k (tasks p) (Update.taskUpdates u)).1 in
  blockers (applyUpdate env k p u).2 =
    blockers p ++
    imap (fun j b =>
            {| Blocker.id := generateId env (k1 + j);
               Blocker.description := BlockerEntry.description b;
               Blocker.resolved := false |}) entries /\
  length (blockers (applyUpdate env k p u).2) =
    length (blockers p) + length entries /\
  blockers p `prefix_of` blockers (applyUpdate env k p u).2.
Proof.
  intros entries k1.
  destruct (applyUpdate_fields env k p u) as (_ & _ & Hb & _).
  assert (E : blockers (applyUpdate env k p u).2 =
              blockers p ++
              imap (fun j b =>
                      {| Blocker.id := generateId env (k1 + j);
                         Blocker.description := BlockerEntry.description b;
                         Blocker.resolved := false |}) entries).
  { rewrite Hb. unfold applyBlockers, entries, k1.
    destruct (Update.blockers u) as [l|]; simpl.
    - now rewrite fold_pushBlocker.
    - now rewrite app_nil_r. }
  split; [exact E|]. rewrite E. split.
  - now rewrite length_app, length_imap.
  - now apply prefix_app_r.
Qed.

(** Two new blockers after one existing blocker; the task added by the
    same update has taken the first generated id. *)
Example blockers_are_appended_demo :
  blockers (applyUpdate demoEnv 0 demoProject blockersUpdate).2 =
    [ Blocker.mk "b0" "No designer" false;
      Blocker.mk "id_1" "API key missing" false;
      Blocker.mk "id_2" "No test devices" false ].
Proof. reflexivity. Qed.

(** ** Priorities *)

Lemma applyUpdate_priorities (env : Env) (k : nat) (p : Project)
    (u : Update.t) :
  priorities (applyUpdate env k p u).2 =
    match Update.priorityUpdate u with
    | Some pu =>
        {| speed := jsAdd (speed (priorities p))
                      (toDouble (numOr0 (PriorityUpdate.speed pu)));
           scope := jsAdd (scope (priorities p))
                      (toDouble (numOr0 (PriorityUpdate.scope pu))) |}
    | None => priorities p
    end.
Proof.
  unfold applyUpdate.
  destruct (applyTaskUpdates env k (tasks p) (Update.taskUpdates u)) as [k1 nt].
  destruct (applyBlockers env k1 (blockers p) (Update.blockers u)) as [k2 nb].
  reflexivity.
Qed.

Lemma numOr0_default o : numOr0 o = default 0%Z o.
Proof. now destruct o. Qed.

Lemma toDouble_exact z : (Z.abs z <= 2 ^ 53)%Z -> toDouble z = Finite z.
Proof.
  intros Hz. unfold toDouble.
  destruct (Z.leb_spec (Z.abs z) (2 ^ 53)) as [_ | Hgt]; [reflexivity | lia].
Qed.

Lemma jsAdd_exact a b :
  (Z.abs (a + b) <= 2 ^ 53)%Z -> jsAdd (Finite a) (Finite b) = Finite (a + b).
Proof. intros H. simpl. now apply toDouble_exact. Qed.

Lemma jsAdd_zero x : isDouble x -> jsAdd x (toDouble 0) = x.
Proof.
  intros Hx. rewrite (toDouble_exact 0) by (simpl; lia).
  destruct x as [z| |]; simpl; [|reflexivity..].
  now rewrite Z.add_0_r.
Qed.

(** C8, as the code has it: when the update carries a [priorityUpdate],
    the new speed and scope are the JS sums of the running totals and the
    deltas, each delta counting as 0 when omitted; when it carries none,
    the priorities are unchanged.  The JS sum is the exact sum as long as
    the delta and the sum stay within [2^53] in magnitude.  Two
    successive updates whose [priorityUpdate] is [{speed: 2}] and
    [{speed: -1}] leave [speed] one above where it started, provided it
    started between [-2^53] and [2^53 - 2], and leave [scope] where it
    was. *)
Theorem priorities_accumulate (env : Env) (k : nat) (p : Project)
    (u : Update.t) :
  match Update.priorityUpdate u with
  | Some pu =>
      speed (priorities (applyUpdate env k p u).2) =
        jsAdd (speed (priorities p))
          (toDouble (default 0%Z (PriorityUpdate.speed pu))) /\
      scope (priorities (applyUpdate env k p u).2) =
        jsAdd (scope (priorities p))
          (toDouble (default 0%Z (PriorityUpdate.scope pu))) /\
      (forall s,
         speed (priorities p) = Finite s ->
         (Z.abs (default 0%Z (PriorityUpdate.speed pu)) <= 2 ^ 53)%Z ->
         (Z.abs (s + default 0%Z (PriorityUpdate.speed pu)) <= 2 ^ 53)%Z ->
         speed (priorities (applyUpdate env k p u).2) =
           Finite (s + default 0%Z (PriorityUpdate.speed pu))) /\
      (forall s,
         scope (priorities p) = Finite s ->
         (Z.abs (default 0%Z (PriorityUpdate.scope pu)) <= 2 ^ 53)%Z ->
         (Z.abs (s + default 0%Z (PriorityUpdate.scope pu)) <= 2 ^ 53)%Z ->
         scope (priorities (applyUpdate env k p u).2) =
           Finite (s + default 0%Z (PriorityUpdate.scope pu)))
  | None => priorities (applyUpdate env k p u).2 = priorities p
  end /\
  forall (u' : Update.t) (k' : nat) (s : Z),
    Update.priorityUpdate u = Some (PriorityUpdate.mk (Some 2%Z) None) ->
    Update.priorityUpdate u' = Some (PriorityUpdate.mk (Some (-1)%Z) None) ->
    speed (priorities p) = Finite s ->
    (- 2 ^ 53 <= s <= 2 ^ 53 - 2)%Z ->
    isDouble (scope (priorities p)) ->
    let p'' := (applyUpdate env k' (applyUpdate env k p u).2 u').2 in
    speed (priorities p'') = Finite (s + 1) /\
    scope (priorities p'') = scope (priorities p).
Proof.
  split.
  - rewrite applyUpdate_priorities.
    destruct (Update.priorityUpdate u) as [pu|]; [|reflexivity].
    cbn [speed scope]. rewrite !numOr0_default.
    split; [reflexivity|]. split; [reflexivity|]. split.
    + intros s -> Hd Hsum. rewrite ?numOr0_default, (toDouble_exact _ Hd).
      now apply jsAdd_exact.
    + intros s -> Hd Hsum. rewrite ?numOr0_default, (toDouble_exact _ Hd).
      now apply jsAdd_exact.
  - intros u' k' s Hu Hu' Hs Hrange Hsc. cbv zeta.
    rewrite !applyUpdate_priorities, Hu, Hu'.
    cbn [speed scope PriorityUpdate.speed PriorityUpdate.scope numOr0].
    rewrite Hs. split.
    + rewrite (toDouble_exact 2), (toDouble_exact (-1)) by (simpl; lia).
      rewrite jsAdd_exact by lia. rewrite jsAdd_exact by lia.
      f_equal. lia.
    + rewrite (jsAdd_zero _ Hsc). now apply jsAdd_zero.
Qed.

(** Starting from speed 3 and scope -2, the updates [{speed: 2}] and
    [{speed: -1}] end at speed 4 and scope -2. *)
Lemma priorities_accumulate_witness :
  Update.priorityUpdate (speedUpdate 2)
    = Some (PriorityUpdate.mk (Some 2%Z) None) /\
  Update.priorityUpdate (speedUpdate (-1))
    = Some (PriorityUpdate.mk (Some (-1)%Z) None) /\
  speed (priorities demoProject) = Finite 3 /\
  (- 2 ^ 53 <= 3 <= 2 ^ 53 - 2)%Z /\
  isDouble (scope (priorities demoProject)) /\
  speed (priorities
           (applyUpdate demoEnv 0
              (applyUpdate demoEnv 0 demoProject (speedUpdate 2)).2
              (speedUpdate (-1))).2) = Finite 4 /\
  scope (priorities
           (applyUpdate demoEnv 0
              (applyUpdate demoEnv 0 demoProject (speedUpdate 2)).2
              (speedUpdate (-1))).2) = Finite (-2).
Proof.
  assert (Hr : (- 2 ^ 53 <= 3 <= 2 ^ 53 - 2)%Z) by (vm_compute; split; discriminate).
  assert (Hd : isDouble (scope (priorities demoProject))) by reflexivity.
  split; [reflexivity|]. split; [reflexivity|]. split; [reflexivity|].
  split; [exact Hr|]. split; [exact Hd|].
  exact (proj2 (priorities_accumulate demoEnv 0 demoProject (speedUpdate 2))
           (speedUpdate (-1)) 0 3%Z eq_refl eq_refl eq_refl Hr Hd).
Defined.

(** C8 as the specification states it fails: from a speed of [2^53],
    which a JS number holds exactly, the update [{speed: 2}] gives
    [2^53 + 2] and the update [{speed: -1}] then gives [2^53] again, the
    even neighbour of [2^53 + 1]: the net change is 0, not +1. *)
Lemma speed_rounds_beyond_2_53 :
  let p := withPriorities demoProject
             {| speed := Finite (2 ^ 53); scope := Finite 0 |} in
  let p'' := (applyUpdate demoEnv 0
                (applyUpdate demoEnv 0 p (speedUpdate 2)).2
                (speedUpdate (-1))).2 in
  isDouble (speed (priorities p)) /\
  speed (priorities p'') = Finite (2 ^ 53) /\
  speed (priorities p'') <> Finite (2 ^ 53 + 1).
Proof.
  split; [vm_compute; reflexivity|].
  split; [vm_compute; reflexivity|].
  vm_compute. discriminate.
Qed.

(** The sum of 3 and [2^53] is the double 9007199254740996. *)
Example jsAdd_rounds_to_even :
  jsAdd (Finite 3) (Finite (2 ^ 53)) = Finite 9007199254740996.
Proof. vm_compute. reflexivity. Qed.

(** An update without [priorityUpdate] keeps both accumulators. *)
Example priorities_kept_demo :
  priorities (applyUpdate demoEnv 0 demoProject emptyUpdate).2
    = {| speed := Finite 3; scope := Finite (-2) |}.
Proof. reflexivity. Qed.

(** ** Frame *)

(** C9: the reducer leaves [projectName], [projectType], [projectGoals],
    [stakeholders], [timeline] and [resources] as they are in its input;
    only [tasks], [progress], [blockers], [priorities] and
    [suggestedActions] are recomputed. *)
Theorem reducer_frame (env : Env) (k : nat) (p : Project) (u : Update.t) :
  projectName (applyUpdate env k p u).2 = projectName p /\
  projectType (applyUpdate env k p u).2 = projectType p /\
  projectGoals (applyUpdate env k p u).2 = projectGoals p /\
  stakeholders (applyUpdate env k p u).2 = stakeholders p /\
  timeline (applyUpdate env k p u).2 = timeline p /\
  resources (applyUpdate env k p u).2 = resources p.
Proof.
  unfold applyUpdate.
  destruct (applyTaskUpdates env k (tasks p) (Update.taskUpdates u)) as [k1 nt].
  destruct (applyBlockers env k1 (blockers p) (Update.blockers u)) as [k2 nb].
  simpl. repeat split.
Qed.

(** ** A conversational turn *)





(** ** The per-task status control *)

Lemma find_no_such_id (taskId : string) (l : list Task.t) :
  (forall t, t ∈ l -> Task.id t <> taskId) ->
  List.find (fun t => String.eqb (Task.id t) taskId) l = None.
Proof.
  intros Hno.
  destruct (List.find _ l) as [t|] eqn:Hf; [|reflexivity].
  apply List.find_some in Hf as [Hin Heq].
  apply String.eqb_eq in Heq. apply list_elem_of_In in Hin.
  exfalso. exact (Hno t Hin Heq).
Qed.

Lemma handleSendMessage_request_project env s message :
  project (handleSendMessage_request env s message) = project s.
Proof.
  unfold handleSendMessage_request.
  destruct (project s) as [p|] eqn:Hp; [reflexivity | now rewrite Hp].
Qed.

(** C10: [handleTaskStatusChange] never changes the project document.
    When the first task whose id is [taskId] exists and the requested
    status is Completed, what it does is exactly the send of the message
    [I have just completed the task: "<name>".] on the normal send path,
    which appends that message as a user message, raises the loading flag
    and issues one gateway request.  For any other status, and when no task
    has that id, the session is left exactly as it was. *)
Theorem status_change_only_sends (env : Env) (s : Session) (taskId : string)
    (status : TaskStatus) :
  project (handleTaskStatusChange env s taskId status) = project s /\
  (forall p task,
     project s = Some p ->
     List.find (fun t => String.eqb (Task.id t) taskId) (tasks p) = Some task ->
     status = Completed ->
     let s' := handleTaskStatusChange env s taskId status in
     s' = handleSendMessage_request env s (completedMessage (Task.name task)) /\
     (exists userMessage,
        chatHistory s' = chatHistory s ++ [userMessage] /\
        sender userMessage = user /\
        text userMessage = completedMessage (Task.name task)) /\
     inFlight s' = S (inFlight s)) /\
  (status <> Completed -> handleTaskStatusChange env s taskId status = s) /\
  ((forall p t, project s = Some p -> t ∈ tasks p -> Task.id t <> taskId) ->
   handleTaskStatusChange env s taskId status = s).
Proof.
  split; [|split; [|split]].
  - unfold handleTaskStatusChange.
    destruct (match project s with Some p => _ | None => None end) as [task|];
      [|reflexivity].
    destruct status; try reflexivity.
    apply handleSendMessage_request_project.
  - intros p task Hp Hfind ->. unfold handleTaskStatusChange.
    rewrite Hp, Hfind. simpl. split; [reflexivity|].
    unfold handleSendMessage_request. rewrite Hp. simpl.
    split; [|reflexivity]. eexists. repeat split.
  - intros Hst. unfold handleTaskStatusChange.
    destruct (match project s with Some p => _ | None => None end) as [task|];
      [|reflexivity].
    destruct status; try reflexivity. congruence.
  - intros Hno. unfold handleTaskStatusChange.
    destruct (project s) as [p|] eqn:Hp; [|reflexivity].
    rewrite find_no_such_id; [reflexivity|].
    intros t Ht. now apply (Hno p).
Qed.

(** Marking the first task of the demonstration project as completed
    sends one synthesized message; asking for another status sends
    nothing. *)
Lemma status_change_only_sends_witness :
  project demoSession = Some demoProject /\
  List.find (fun t => String.eqb (Task.id t) "t1") (tasks demoProject)
    = Some taskDesign /\
  handleTaskStatusChange demoEnv demoSession "t1" Completed =
    handleSendMessage_request demoEnv demoSession
      (completedMessage "Design") /\
  inFlight (handleTaskStatusChange demoEnv demoSession "t1" Completed) = 1 /\
  InProgress <> Completed /\
  handleTaskStatusChange demoEnv demoSession "t1" InProgress = demoSession.
Proof.
  split; [reflexivity|]. split; [reflexivity|].
  destruct (status_change_only_sends demoEnv demoSession "t1" Completed)
    as (_ & Hsend & _).
  destruct (Hsend demoProject taskDesign eq_refl eq_refl eq_refl)
    as (Heq & _ & Hfl).
  split; [exact Heq|]. split; [exact Hfl|].
  split; [discriminate|].
  destruct (status_change_only_sends demoEnv demoSession "t1" InProgress)
    as (_ & _ & Hother & _).
  apply Hother. discriminate.
Defined.

(** ** One request at a time *)

(** The two controls of [ActionPanel] test the loading flag. *)
Lemma handleSend_rejected_while_loading env s message :
  isLoading s = true -> handleSend env s message = s.
Proof.
  intros Hl. unfold handleSend. rewrite Hl. simpl.
  now destruct (trim message).
Qed.

Lemma handleSuggestedSend_rejected_while_loading env s action :
  isLoading s = true -> handleSuggestedSend env s action = s.
Proof. intros Hl. unfold handleSuggestedSend. now rewrite Hl. Qed.

Lemma handleSendMessage_request_when_idle env s message :
  flagCountsRequests s -> isLoading s = false ->
  flagCountsRequests (handleSendMessage_request env s message).
Proof.
  unfold flagCountsRequests, handleSendMessage_request. intros Hinv Hl.
  destruct (project s); simpl; [|exact Hinv].
  rewrite Hl in Hinv. now rewrite Hinv.
Qed.

Lemma step_guarded_keeps_invariant env s e :
  guardedControl e = true ->
  flagCountsRequests s -> flagCountsRequests (step env s e).
Proof.
  intros Hg Hinv. destruct e as [message|action|taskId|r]; simpl.
  - unfold handleSend. destruct (trim message); [exact Hinv|].
    destruct (isLoading s) eqn:Hl; simpl; [exact Hinv|].
    now apply handleSendMessage_request_when_idle.
  - unfold handleSuggestedSend.
    destruct (isLoading s) eqn:Hl; simpl; [exact Hinv|].
    now apply handleSendMessage_request_when_idle.
  - discriminate.
  - destruct (inFlight s) as [|n] eqn:Hn; [exact Hinv|].
    unfold flagCountsRequests in *. rewrite Hn in Hinv.
    destruct (isLoading s); [|discriminate]. injection Hinv as ->.
    destruct r as [|upd]; simpl; [now rewrite Hn|].
    destruct (projectUpdater env (idCalls s) (project s) upd).
    simpl. now rewrite Hn.
Qed.

(** As long as only the text input and the suggested-action buttons are
    used, at most one gateway request is pending. *)
Lemma guarded_controls_one_in_flight env es :
  forall s,
    forallb guardedControl es = true ->
    flagCountsRequests s ->
    flagCountsRequests (run env s es) /\ inFlight (run env s es) <= 1.
Proof.
  assert (Hle : forall s, flagCountsRequests s -> inFlight s <= 1).
  { intros s Hs. unfold flagCountsRequests in Hs.
    destruct (isLoading s); lia. }
  induction es as [|e es IH]; intros s Hall Hinv; simpl.
  - split; [exact Hinv | now apply Hle].
  - simpl in Hall. apply andb_true_iff in Hall as [He Hes].
    apply IH; [exact Hes|]. now apply step_guarded_keeps_invariant.
Qed.

(** [handleTaskStatusChange] does not look at the loading flag: whatever
    its value, a click on an existing task issues one more request. *)
Lemma handleTaskStatusChange_ignores_flag env s p task taskId :
  project s = Some p ->
  List.find (fun t => String.eqb (Task.id t) taskId) (tasks p) = Some task ->
  inFlight (handleTaskStatusChange env s taskId Completed) = S (inFlight s).
Proof.
  intros Hp Hfind. unfold handleTaskStatusChange. rewrite Hp, Hfind.
  unfold handleSendMessage_request. now rewrite Hp.
Qed.

(** C2 does not hold of the "Mark as Completed" control.  In the
    demonstration session the user sends [hello]; the request is pending
    and the loading flag is set.  A second manual send and a click on a
    suggested action are then rejected, but a click on "Mark as Completed"
    of task [t1] goes through: a second user message is appended and two
    gateway requests are pending at once. *)
Theorem mark_completed_sends_while_loading :
  let s1 := step demoEnv demoSession (ManualSend "hello") in
  let s2 := step demoEnv s1 (MarkCompletedClick "t1") in
  isLoading s1 = true /\ inFlight s1 = 1 /\
  step demoEnv s1 (ManualSend "again") = s1 /\
  step demoEnv s1 (SuggestedClick "Start designing") = s1 /\
  s2 <> s1 /\
  inFlight s2 = 2 /\
  length (chatHistory s2) = S (length (chatHistory s1)).
Proof.
  repeat split; try reflexivity. vm_compute. discriminate.
Qed.

(** ** The model on concrete turns *)

Example trim_demo :
  trim "  done with search " = "done with search" /\ trim "   " = "".
Proof. split; reflexivity. Qed.

(** White space beyond ASCII is stripped too: U+00A0, U+2003 and U+FEFF
    around a word, and an input of U+00A0 and U+3000 only. *)
Example trim_unicode_demo :
  let nbsp := String (ascii_of_nat 194) (String (ascii_of_nat 160) "") in
  let emsp := String (ascii_of_nat 226) (String (ascii_of_nat 128)
                (String (ascii_of_nat 131) "")) in
  let bom := String (ascii_of_nat 239) (String (ascii_of_nat 187)
               (String (ascii_of_nat 191) "")) in
  let ideographic := String (ascii_of_nat 227) (String (ascii_of_nat 128)
                       (String (ascii_of_nat 128) "")) in
  trim (nbsp ++ emsp ++ "done" ++ bom ++ nbsp)%string = "done" /\
  trim (nbsp ++ ideographic)%string = "" /\
  handleSend demoEnv demoSession (nbsp ++ ideographic)%string = demoSession.
Proof. repeat split. Qed.

(** A blank input sends nothing, even when no request is pending. *)
Example handleSend_blank : handleSend demoEnv demoSession "   " = demoSession.
Proof. reflexivity. Qed.

(** A successful turn: progress 95 plus 15 is clamped to 100, the named
    task becomes Completed, the reply of the gateway is appended after the
    user's message, and the flag is cleared. *)
Example successful_turn_demo :
  let upd :=
    Update.mk "Great work." ["Start building"] (Some 15%Z) None None
      (Some [TaskUpdate.mk None "Design" None (Some Completed) complete]) in
  let s' :=
    run demoEnv demoSession
      [ManualSend "done with design"; GatewaySettles (LlmSuccess upd)] in
  (progress <$> project s') = Some 100%Z /\
  (tasks <$> project s') =
    Some [Task.mk "t1" "Design" "Draw the screens" Completed []; taskBuild] /\
  (suggestedActions <$> project s') = Some ["Start building"] /\
  map text (chatHistory s') = ["Welcome"; "done with design"; "Great work."] /\
  map sender (chatHistory s') = [ai; user; ai] /\
  isLoading s' = false /\ inFlight s' = 0.
Proof. repeat split. Qed.

(** A [remove] entry deletes the matched task and nothing else. *)
Example remove_entry_demo :
  applyTaskUpdate demoEnv (0, [taskDesign; taskBuild])
    (TaskUpdate.mk None "Design" None None remove) = (0, [taskBuild]) /\
  applyTaskUpdate demoEnv (0, [taskDesign; taskBuild])
    (TaskUpdate.mk None "Deploy" None None remove)
  = (0, [taskDesign; taskBuild]).
Proof. split; reflexivity. Qed.

(** * Further properties of the code *)

(** ** Removing a task *)

Lemma findIndex_app_last {A : Type} (p : A -> bool) (l : list A) (x : A) :
  findIndex p l = None -> p x = true ->
  findIndex p (l ++ [x]) = Some (length l).
Proof.
  intros Hnone Hx. apply findIndex_Some. exists x.
  split; [now apply list_lookup_middle|]. split; [exact Hx|].
  intros j y Hj Hy. rewrite lookup_app_l in Hy by exact Hj.
  rewrite findIndex_None in Hnone. apply Hnone.
  eapply list_elem_of_lookup_2, Hy.
Qed.

(** X1: A [remove] entry deletes the task at the position [findIndex]
    returns and nothing else: the tasks before and after it keep their
    order, the list gets one shorter and no id is generated; without a
    match the list is returned as it was.  Only the first match goes, but
    when the names in the list are pairwise distinct and the entry carries
    no [taskId], no task of that name is left. *)
Theorem remove_entry_deletes_first_match (env : Env) (k : nat)
    (newTasks : list Task.t) (u : TaskUpdate.t) :
  TaskUpdate.action u = remove ->
  match existingTaskIndex newTasks u with
  | Some i =>
      applyTaskUpdate env (k, newTasks) u
        = (k, take i newTasks ++ drop (S i) newTasks) /\
      S (length (applyTaskUpdate env (k, newTasks) u).2) = length newTasks
  | None => applyTaskUpdate env (k, newTasks) u = (k, newTasks)
  end /\
  (NoDup (Task.name <$> newTasks) -> TaskUpdate.taskId u = None ->
   forall t, t ∈ (applyTaskUpdate env (k, newTasks) u).2 ->
             Task.name t <> TaskUpdate.name u).
Proof.
  intros Hact.
  assert (Hstep : applyTaskUpdate env (k, newTasks) u =
                  match existingTaskIndex newTasks u with
                  | Some i => (k, delete i newTasks)
                  | None => (k, newTasks)
                  end).
  { unfold applyTaskUpdate. now rewrite Hact. }
  rewrite Hstep. split.
  - destruct (existingTaskIndex newTasks u) as [i|] eqn:Hidx; [|reflexivity].
    pose proof (existingTaskIndex_lt _ _ _ Hidx) as Hlt.
    split; [now rewrite delete_take_drop|].
    simpl. rewrite length_delete by now apply lookup_lt_is_Some_2. lia.
  - intros Hnd Hid t Ht.
    destruct (existingTaskIndex newTasks u) as [i|] eqn:Hidx; simpl in Ht.
    + unfold existingTaskIndex in Hidx.
      apply findIndex_Some in Hidx as (x & Hx & Hpx & _).
      apply matchesUpdate_true in Hpx as [Hpx | Hpx]; [congruence|].
      apply list_elem_of_lookup_1 in Ht as [j Hj].
      intros Hname.
      assert (Hsrc : exists j', j' <> i /\ newTasks !! j' = Some t).
      { destruct (decide (j < i)) as [Hlt | Hge].
        - exists j. split; [lia|]. now rewrite list_lookup_delete_lt in Hj.
        - exists (S j). split; [lia|].
          now rewrite list_lookup_delete_ge in Hj by lia. }
      destruct Hsrc as (j' & Hne & Hj'). apply Hne.
      apply (NoDup_lookup _ j' i (TaskUpdate.name u) Hnd).
      * rewrite list_lookup_fmap, Hj'. simpl. now rewrite Hname.
      * rewrite list_lookup_fmap, Hx. simpl. now rewrite Hpx.
    + unfold existingTaskIndex in Hidx. rewrite findIndex_None in Hidx.
      specialize (Hidx t Ht). now apply matchesUpdate_false in Hidx.
Qed.

(** Removing [Design] from the demonstration list. *)
Lemma remove_entry_deletes_first_match_witness :
  TaskUpdate.action (withAction patchEntry remove) = remove /\
  applyTaskUpdate demoEnv (0, [taskDesign; taskBuild])
    (withAction patchEntry remove) = (0, [taskBuild]).
Proof.
  split; [reflexivity|].
  pose proof (remove_entry_deletes_first_match demoEnv 0
                [taskDesign; taskBuild] (withAction patchEntry remove)
                eq_refl) as [H _].
  assert (E : existingTaskIndex [taskDesign; taskBuild]
                (withAction patchEntry remove) = Some 0) by reflexivity.
  rewrite E in H. exact (proj1 H).
Defined.

(** X2: Entries of one update are applied one after the other, each on the
    list the previous ones left: an [add] entry that appends a task,
    followed in the same update by the [remove] entry for it, gives back
    the list the update started with; the id generated for the task is
    used up. *)
Theorem add_then_remove_restores (env : Env) (k : nat)
    (prevTasks : list Task.t) (u : TaskUpdate.t) :
  TaskUpdate.action u = add ->
  existingTaskIndex prevTasks u = None ->
  applyTaskUpdates env k prevTasks (Some [u; withAction u remove])
    = (S k, prevTasks).
Proof.
  intros Hact Hnone. unfold applyTaskUpdates. cbn [fold_left].
  assert (E1 : applyTaskUpdate env (k, prevTasks) u =
               (S k, prevTasks ++ [newTask (generateId env k) u])).
  { unfold applyTaskUpdate. now rewrite Hact, Hnone. }
  rewrite E1.
  assert (E2 : existingTaskIndex (prevTasks ++ [newTask (generateId env k) u])
                 (withAction u remove) = Some (length prevTasks)).
  { apply findIndex_app_last.
    - exact Hnone.
    - apply matchesUpdate_true. right. reflexivity. }
  unfold applyTaskUpdate. rewrite E2. simpl. f_equal.
  now rewrite delete_middle, app_nil_r.
Qed.

Lemma add_then_remove_restores_witness :
  TaskUpdate.action addEntry = add /\
  existingTaskIndex [taskDesign; taskBuild] addEntry = None /\
  applyTaskUpdates demoEnv 0 [taskDesign; taskBuild]
    (Some [addEntry; withAction addEntry remove])
  = (1, [taskDesign; taskBuild]).
Proof.
  split; [reflexivity|]. split; [reflexivity|].
  exact (add_then_remove_restores demoEnv 0 [taskDesign; taskBuild] addEntry
           eq_refl eq_refl).
Defined.

(** ** Distinct identifiers *)

Section Freshness.
Context (env : Env) (Hinj : Inj (=) (=) (generateId env)).

Lemma FreshFrom_mono k k' ids :
  k <= k' -> FreshFrom env k ids -> FreshFrom env k' ids.
Proof.
  intros Hle [Hnd Hfresh]. split; [exact Hnd|].
  intros j Hj. apply Hfresh. lia.
Qed.

Lemma FreshFrom_snoc k ids :
  FreshFrom env k ids -> FreshFrom env (S k) (ids ++ [generateId env k]).
Proof.
  intros [Hnd Hfresh]. split.
  - apply NoDup_app. split; [exact Hnd|]. split; [|apply NoDup_singleton].
    intros x Hx Hin. apply list_elem_of_singleton in Hin as ->.
    now apply (Hfresh k).
  - intros j Hj Hin. apply elem_of_app in Hin as [Hin | Hin].
    + apply (Hfresh j); [lia | exact Hin].
    + apply list_elem_of_singleton, Hinj in Hin. lia.
Qed.

Lemma FreshFrom_delete k ids i :
  FreshFrom env k ids -> FreshFrom env k (delete i ids).
Proof.
  intros [Hnd Hfresh]. split.
  - eapply sublist_NoDup; [exact Hnd | apply sublist_delete].
  - intros j Hj Hin. apply (Hfresh j Hj).
    eapply list_elem_of_delete_inv, Hin.
Qed.

Lemma patchTask_ids u i (l : list Task.t) :
  Task.id <$> alter (patchTask u) i l = Task.id <$> l.
Proof.
  rewrite (list_fmap_alter Task.id (patchTask u) (fun x => x)).
  - generalize (Task.id <$> l). clear. intros ids. revert i.
    induction ids as [|x ids IH]; intros [|i]; simpl; f_equal; auto.
    apply IH.
  - apply Forall_forall. reflexivity.
Qed.

Lemma applyTaskUpdate_fresh k l u :
  FreshFrom env k (Task.id <$> l) ->
  k <= (applyTaskUpdate env (k, l) u).1 /\
  FreshFrom env (applyTaskUpdate env (k, l) u).1
    (Task.id <$> (applyTaskUpdate env (k, l) u).2).
Proof.
  intros Hf. unfold applyTaskUpdate.
  destruct (TaskUpdate.action u), (existingTaskIndex l u) as [i|]; simpl;
    try (split; [lia | exact Hf]).
  - split; [lia|]. rewrite fmap_app. simpl. now apply FreshFrom_snoc.
  - split; [lia|]. rewrite list_fmap_delete. now apply FreshFrom_delete.
  - split; [lia|]. now rewrite patchTask_ids.
  - split; [lia|]. now rewrite patchTask_ids.
Qed.

Lemma fold_applyTaskUpdate_fresh us :
  forall k l,
    FreshFrom env k (Task.id <$> l) ->
    k <= (fold_left (applyTaskUpdate env) us (k, l)).1 /\
    FreshFrom env (fold_left (applyTaskUpdate env) us (k, l)).1
      (Task.id <$> (fold_left (applyTaskUpdate env) us (k, l)).2).
Proof.
  induction us as [|u us IH]; intros k l Hf; cbn [fold_left].
  - split; [simpl; lia | exact Hf].
  - pose proof (applyTaskUpdate_fresh k l u Hf) as Hstep.
    destruct (applyTaskUpdate env (k, l) u) as [k1 l1] eqn:E.
    destruct Hstep as [Hle Hf']. simpl in Hle, Hf'.
    destruct (IH k1 l1 Hf') as [Hle' Hf'']. split; [lia | exact Hf''].
Qed.

Lemma applyTaskUpdates_fresh k l us :
  FreshFrom env k (Task.id <$> l) ->
  k <= (applyTaskUpdates env k l us).1 /\
  FreshFrom env (applyTaskUpdates env k l us).1
    (Task.id <$> (applyTaskUpdates env k l us).2).
Proof.
  intros Hf. destruct us as [us|]; simpl.
  - now apply fold_applyTaskUpdate_fresh.
  - split; [lia | exact Hf].
Qed.

Lemma fold_pushBlocker_fresh bs :
  forall k l,
    FreshFrom env k (Blocker.id <$> l) ->
    k <= (fold_left (pushBlocker env) bs (k, l)).1 /\
    FreshFrom env (fold_left (pushBlocker env) bs (k, l)).1
      (Blocker.id <$> (fold_left (pushBlocker env) bs (k, l)).2).
Proof.
  induction bs as [|b bs IH]; intros k l Hf; cbn [fold_left].
  - split; [simpl; lia | exact Hf].
  - assert (E : pushBlocker env (k, l) b =
                (S k, l ++ [ {| Blocker.id := generateId env k;
                                Blocker.description := BlockerEntry.description b;
                                Blocker.resolved := false |} ]))
      by reflexivity.
    rewrite E.
    edestruct (IH (S k)) as [Hle Hf']; [|split; [apply Nat.lt_le_incl, Hle | exact Hf']].
    rewrite fmap_app. simpl. now apply FreshFrom_snoc.
Qed.

Lemma applyBlockers_fresh k l bs :
  FreshFrom env k (Blocker.id <$> l) ->
  k <= (applyBlockers env k l bs).1 /\
  FreshFrom env (applyBlockers env k l bs).1
    (Blocker.id <$> (applyBlockers env k l bs).2).
Proof.
  intros Hf. destruct bs as [bs|]; simpl.
  - now apply fold_pushBlocker_fresh.
  - split; [lia | exact Hf].
Qed.

Lemma applyUpdate_fresh k p u :
  FreshFrom env k (Task.id <$> tasks p) ->
  FreshFrom env k (Blocker.id <$> blockers p) ->
  k <= (applyUpdate env k p u).1 /\
  FreshFrom env (applyUpdate env k p u).1
    (Task.id <$> tasks (applyUpdate env k p u).2) /\
  FreshFrom env (applyUpdate env k p u).1
    (Blocker.id <$> blockers (applyUpdate env k p u).2).
Proof.
  intros Ht Hb.
  destruct (applyUpdate_fields env k p u) as (Hk & Htasks & Hblockers & _).
  cbv zeta in Hk, Htasks, Hblockers. rewrite Hk, Htasks, Hblockers.
  destruct (applyTaskUpdates_fresh k (tasks p) (Update.taskUpdates u) Ht)
    as [Hle1 Ht1].
  set (k1 := (applyTaskUpdates env k (tasks p) (Update.taskUpdates u)).1) in *.
  destruct (applyBlockers_fresh k1 (blockers p) (Update.blockers u)
              (FreshFrom_mono k k1 _ Hle1 Hb)) as [Hle2 Hb2].
  split; [lia|]. split; [|exact Hb2].
  eapply FreshFrom_mono; [exact Hle2 | exact Ht1].
Qed.

End Freshness.

(** X5: When [generateId()] never returns the same string twice, and the ids
    of the project's tasks and of its blockers are pairwise distinct and
    are not among the strings [generateId()] is still going to return,
    then the same holds of the reducer's result: the ids of the tasks are
    pairwise distinct and so are the ids of the blockers, also after
    further updates. *)
Theorem reducer_keeps_ids_distinct (env : Env) (k : nat) (p : Project)
    (u : Update.t) :
  Inj (=) (=) (generateId env) ->
  FreshFrom env k (Task.id <$> tasks p) ->
  FreshFrom env k (Blocker.id <$> blockers p) ->
  NoDup (Task.id <$> tasks (applyUpdate env k p u).2) /\
  NoDup (Blocker.id <$> blockers (applyUpdate env k p u).2) /\
  FreshFrom env (applyUpdate env k p u).1
    (Task.id <$> tasks (applyUpdate env k p u).2) /\
  FreshFrom env (applyUpdate env k p u).1
    (Blocker.id <$> blockers (applyUpdate env k p u).2).
Proof.
  intros Hinj Ht Hb.
  destruct (applyUpdate_fresh env Hinj k p u Ht Hb) as (_ & Ht' & Hb').
  split; [exact (proj1 Ht')|]. split; [exact (proj1 Hb')|]. now split.
Qed.

Lemma natString_inj : Inj (=) (=) natString.
Proof.
  intros n m H. unfold natString in H.
  apply DecimalNat.Unsigned.to_uint_inj.
  pose proof (NilEmpty.usu (Nat.to_uint n)) as Hn.
  pose proof (NilEmpty.usu (Nat.to_uint m)) as Hm.
  rewrite H in Hn. congruence.
Qed.

Lemma demoEnv_generateId_inj : Inj (=) (=) (generateId demoEnv).
Proof.
  intros n m H. apply natString_inj.
  change (("id_" ++ natString n)%string = ("id_" ++ natString m)%string) in H.
  cbn [append] in H. now injection H.
Qed.

Lemma demoProject_ids_fresh :
  FreshFrom demoEnv 0 (Task.id <$> tasks demoProject) /\
  FreshFrom demoEnv 0 (Blocker.id <$> blockers demoProject).
Proof.
  split; (split; [apply (bool_decide_unpack _); vm_compute; exact I|]).
  - intros j _ Hin. simpl in Hin.
    repeat (apply elem_of_cons in Hin as [Hin | Hin]; [discriminate|]).
    inversion Hin.
  - intros j _ Hin. simpl in Hin.
    repeat (apply elem_of_cons in Hin as [Hin | Hin]; [discriminate|]).
    inversion Hin.
Qed.

(** The update that adds one task and two blockers to the demonstration
    project leaves all ids distinct. *)
Lemma reducer_keeps_ids_distinct_witness :
  Inj (=) (=) (generateId demoEnv) /\
  FreshFrom demoEnv 0 (Task.id <$> tasks demoProject) /\
  FreshFrom demoEnv 0 (Blocker.id <$> blockers demoProject) /\
  NoDup (Task.id <$>
           tasks (applyUpdate demoEnv 0 demoProject blockersUpdate).2) /\
  NoDup (Blocker.id <$>
           blockers (applyUpdate demoEnv 0 demoProject blockersUpdate).2).
Proof.
  split; [exact demoEnv_generateId_inj|].
  split; [exact (proj1 demoProject_ids_fresh)|].
  split; [exact (proj2 demoProject_ids_fresh)|].
  destruct (reducer_keeps_ids_distinct demoEnv 0 demoProject blockersUpdate
              demoEnv_generateId_inj (proj1 demoProject_ids_fresh)
              (proj2 demoProject_ids_fresh)) as (Ht & Hb & _).
  split; [exact Ht | exact Hb].
Defined.

(** ** Project creation *)

Lemma mapInitialTasks_imap (env : Env) (l : list InitialTask.t) :
  forall k,
    mapInitialTasks env k l =
    (k + length l,
     imap (fun j task =>
             {| Task.id := generateId env (k + j);
                Task.name := InitialTask.name task;
                Task.description := InitialTask.description task;
                Task.status := NotStarted;
                Task.subtasks := [] |}) l).
Proof.
  induction l as [|task l IH]; intros k; simpl.
  - now rewrite Nat.add_0_r.
  - rewrite IH. f_equal; [lia|]. rewrite Nat.add_0_r. f_equal.
    apply imap_ext. intros j x _. simpl. do 2 f_equal. lia.
Qed.

Lemma mapInitialTasks_ids (env : Env) (l : list InitialTask.t) (k : nat) :
  Task.id <$> (mapInitialTasks env k l).2
    = generateId env <$> seq k (length l).
Proof.
  rewrite mapInitialTasks_imap. simpl. rewrite fmap_imap.
  rewrite <- imap_seq. apply imap_ext. reflexivity.
Qed.

(** X10: A successful creation builds the project from the gateway's answer:
    one task per initial task, in the same order and with the same name
    and description, each Not Started, without subtasks and with the id of
    its own [generateId()] call; progress 0, both priorities 0, no
    blockers.  The chat history becomes the opening message alone,
    whatever it held before, and the loading flag is cleared.  A failed
    creation clears the flag and leaves project and chat history as they
    were. *)
Theorem creation_builds_project (env : Env) (s : Session)
    (result : CreationResult.t) :
  let initialTasks :=
    NewProjectData.initialTasks (CreationResult.project result) in
  let s' := handleCreateProject_settle env s (CreationSuccess result) in
  let s'' := handleCreateProject_settle env s CreationFailure in
  (exists p,
     project s' = Some p /\
     tasks p =
       imap (fun j task =>
               {| Task.id := generateId env (idCalls s + j);
                  Task.name := InitialTask.name task;
                  Task.description := InitialTask.description task;
                  Task.status := NotStarted;
                  Task.subtasks := [] |}) initialTasks /\
     length (tasks p) = length initialTasks /\
     progress p = 0%Z /\
     priorities p = {| speed := Finite 0; scope := Finite 0 |} /\
     blockers p = [] /\
     suggestedActions p = CreationResult.suggestedActions result) /\
  (exists openingMessage,
     chatHistory s' = [openingMessage] /\
     sender openingMessage = ai /\
     text openingMessage = CreationResult.openingStatement result) /\
  isLoading s' = false /\
  idCalls s' = idCalls s + length initialTasks /\
  project s'' = project s /\ chatHistory s'' = chatHistory s /\
  isLoading s'' = false.
Proof.
  intros initialTasks s' s''. subst s' s''. unfold handleCreateProject_settle.
  fold initialTasks. rewrite (mapInitialTasks_imap env initialTasks).
  simpl. split.
  - eexists. split; [reflexivity|]. simpl.
    split; [reflexivity|]. split; [apply length_imap|]. repeat split.
  - split; [eexists; repeat split|]. repeat split.
Qed.

(** ** The shape of the documents *)

Lemma applyTaskUpdate_subtasks env k l u :
  Forall (fun t => Task.subtasks t = []) l ->
  Forall (fun t => Task.subtasks t = []) (applyTaskUpdate env (k, l) u).2.
Proof.
  intros Hl. unfold applyTaskUpdate.
  destruct (TaskUpdate.action u), (existingTaskIndex l u) as [i|]; simpl;
    try exact Hl.
  - apply Forall_app. split; [exact Hl|]. now repeat constructor.
  - now apply Forall_delete.
  - apply Forall_alter; [exact Hl|]. intros x _ Hx. exact Hx.
  - apply Forall_alter; [exact Hl|]. intros x _ Hx. exact Hx.
Qed.

Lemma applyTaskUpdates_subtasks env us k l :
  Forall (fun t => Task.subtasks t = []) l ->
  Forall (fun t => Task.subtasks t = []) (applyTaskUpdates env k l us).2.
Proof.
  destruct us as [us|]; simpl; [|auto].
  revert k l. induction us as [|u us IH]; intros k l Hl; cbn [fold_left].
  - exact Hl.
  - pose proof (applyTaskUpdate_subtasks env k l u Hl) as Hstep.
    destruct (applyTaskUpdate env (k, l) u) as [k1 l1]. now apply IH.
Qed.

Lemma applyBlockers_unresolved env bs k l :
  Forall (fun b => Blocker.resolved b = false) l ->
  Forall (fun b => Blocker.resolved b = false) (applyBlockers env k l bs).2.
Proof.
  intros Hl. destruct bs as [bs|]; simpl; [|exact Hl].
  rewrite fold_pushBlocker. simpl. apply Forall_app. split; [exact Hl|].
  apply Forall_forall. intros b Hb.
  apply list_elem_of_lookup_1 in Hb as [j Hj].
  rewrite list_lookup_imap in Hj.
  destruct (bs !! j); simpl in Hj; [|discriminate].
  now injection Hj as <-.
Qed.

Lemma applyUpdate_documentShape env k p u :
  Forall (fun b => Blocker.resolved b = false) (blockers p) ->
  Forall (fun t => Task.subtasks t = []) (tasks p) ->
  stakeholders p = [] -> resources p = [] -> targetDate (timeline p) = "" ->
  documentShape (applyUpdate env k p u).2.
Proof.
  intros Hb Ht Hs Hr Hd.
  destruct (applyUpdate_fields env k p u) as (_ & Htasks & Hblockers & Hp & _).
  cbv zeta in Htasks, Hblockers.
  unfold documentShape. rewrite Hp, Hblockers, Htasks.
  split; [lia|]. split; [now apply applyBlockers_unresolved|].
  split; [now apply applyTaskUpdates_subtasks|].
  unfold applyUpdate.
  destruct (applyTaskUpdates env k (tasks p) (Update.taskUpdates u)) as [k1 nt].
  destruct (applyBlockers env k1 (blockers p) (Update.blockers u)) as [k2 nb].
  simpl. now rewrite Hs, Hr, Hd.
Qed.

Lemma visibleBlockers_all p :
  Forall (fun b => Blocker.resolved b = false) (blockers p) ->
  visibleBlockers p = blockers p.
Proof.
  unfold visibleBlockers. induction 1 as [|b l Hb Hl IH]; simpl.
  - reflexivity.
  - now rewrite Hb, IH.
Qed.

(** ** What every reachable session satisfies *)

Lemma handleSend_project env s message :
  project (handleSend env s message) = project s /\
  idCalls (handleSend env s message) = idCalls s.
Proof.
  unfold handleSend. destruct (trim message); [now split|].
  destruct (isLoading s); simpl; [now split|].
  unfold handleSendMessage_request.
  destruct (project s) eqn:Hp; simpl; now rewrite ?Hp.
Qed.

Lemma handleSuggestedSend_project env s action :
  project (handleSuggestedSend env s action) = project s /\
  idCalls (handleSuggestedSend env s action) = idCalls s.
Proof.
  unfold handleSuggestedSend. destruct (isLoading s); simpl; [now split|].
  unfold handleSendMessage_request.
  destruct (project s) eqn:Hp; simpl; now rewrite ?Hp.
Qed.

Lemma handleTaskStatusChange_project env s taskId status :
  project (handleTaskStatusChange env s taskId status) = project s /\
  idCalls (handleTaskStatusChange env s taskId status) = idCalls s.
Proof.
  unfold handleTaskStatusChange.
  destruct (match project s with Some p => _ | None => None end) as [task|];
    [|now split].
  destruct status; try now split.
  unfold handleSendMessage_request.
  destruct (project s) eqn:Hp; simpl; now rewrite ?Hp.
Qed.

Lemma settle_documentShape env s r :
  sessionDocumentShape s ->
  sessionDocumentShape (handleSendMessage_settle env s r).
Proof.
  intros Hs p'. destruct r as [|upd]; simpl; [apply Hs|].
  unfold projectUpdater. destruct (project s) as [p|] eqn:Hp;
    [|discriminate].
  pose proof (Hs p Hp) as (_ & Hb & Ht & Hst & Hr & Hd).
  pose proof (applyUpdate_documentShape env (idCalls s) p upd Hb Ht Hst Hr Hd)
    as Hshape.
  destruct (applyUpdate env (idCalls s) p upd) as [k' q]. simpl.
  now intros [= <-].
Qed.

Lemma settle_idsFresh env s r :
  Inj (=) (=) (generateId env) ->
  sessionIdsFresh env s ->
  sessionIdsFresh env (handleSendMessage_settle env s r).
Proof.
  intros Hinj Hs p'. destruct r as [|upd]; simpl; [apply Hs|].
  unfold projectUpdater. destruct (project s) as [p|] eqn:Hp;
    [|discriminate].
  destruct (Hs p Hp) as [Ht Hb].
  pose proof (applyUpdate_fresh env Hinj (idCalls s) p upd Ht Hb)
    as (_ & Ht' & Hb').
  destruct (applyUpdate env (idCalls s) p upd) as [k' q]. simpl.
  intros [= <-]. now split.
Qed.

Lemma step_documentShape env s e :
  sessionDocumentShape s -> sessionDocumentShape (step env s e).
Proof.
  intros Hs. destruct e as [message|action|taskId|r]; simpl.
  - intros p. rewrite (proj1 (handleSend_project env s message)). apply Hs.
  - intros p. rewrite (proj1 (handleSuggestedSend_project env s action)).
    apply Hs.
  - intros p.
    rewrite (proj1 (handleTaskStatusChange_project env s taskId Completed)).
    apply Hs.
  - destruct (inFlight s); [exact Hs | now apply settle_documentShape].
Qed.

Lemma step_idsFresh env s e :
  Inj (=) (=) (generateId env) ->
  sessionIdsFresh env s -> sessionIdsFresh env (step env s e).
Proof.
  intros Hinj Hs. destruct e as [message|action|taskId|r]; simpl.
  - intros p. destruct (handleSend_project env s message) as [-> ->].
    apply Hs.
  - intros p. destruct (handleSuggestedSend_project env s action) as [-> ->].
    apply Hs.
  - intros p.
    destruct (handleTaskStatusChange_project env s taskId Completed)
      as [-> ->].
    apply Hs.
  - destruct (inFlight s); [exact Hs | now apply settle_idsFresh].
Qed.

Lemma creation_documentShape env s r :
  sessionDocumentShape s ->
  sessionDocumentShape (handleCreateProject_settle env s r).
Proof.
  intros Hs p. destruct r as [|result]; simpl; [apply Hs|].
  rewrite mapInitialTasks_imap. simpl. intros [= <-].
  unfold documentShape. simpl.
  split; [lia|]. split; [constructor|]. split; [|repeat split].
  apply Forall_forall. intros t Ht.
  apply list_elem_of_lookup_1 in Ht as [j Hj].
  rewrite list_lookup_imap in Hj.
  destruct (_ !! j); simpl in Hj; [|discriminate].
  now injection Hj as <-.
Qed.

Lemma creation_idsFresh env s r :
  Inj (=) (=) (generateId env) ->
  sessionIdsFresh env s ->
  sessionIdsFresh env (handleCreateProject_settle env s r).
Proof.
  intros Hinj Hs p. destruct r as [|result]; simpl; [apply Hs|].
  pose proof (mapInitialTasks_ids env
    (NewProjectData.initialTasks (CreationResult.project result)) (idCalls s))
    as Hids.
  rewrite mapInitialTasks_imap in Hids |- *. simpl in Hids |- *.
  intros [= <-]. simpl. rewrite Hids. split.
  - split.
    + apply (NoDup_fmap_2 _), NoDup_seq.
    + intros j Hj Hin. apply (list_elem_of_fmap_inj_2 _) in Hin.
      apply elem_of_seq in Hin. lia.
  - split; [constructor|]. intros j _ Hin. inversion Hin.
Qed.

Lemma dispatch_documentShape env a ev :
  sessionDocumentShape (session a) ->
  sessionDocumentShape (session (dispatch env a ev)).
Proof.
  intros Hs. destruct ev as [e|confirmed|name type goals|r]; simpl.
  - now apply step_documentShape.
  - destruct (project (session a)); [|exact Hs].
    destruct confirmed; simpl; [|exact Hs]. intros q. discriminate.
  - destruct (project (session a)) eqn:Hp; [exact Hs|].
    destruct (isLoading (session a)); [exact Hs|]. simpl.
    unfold handleSubmit.
    destruct (truthy name && truthy type && truthy goals); exact Hs.
  - destruct (creating a); [exact Hs|]. now apply creation_documentShape.
Qed.

Lemma dispatch_idsFresh env a ev :
  Inj (=) (=) (generateId env) ->
  sessionIdsFresh env (session a) ->
  sessionIdsFresh env (session (dispatch env a ev)).
Proof.
  intros Hinj Hs. destruct ev as [e|confirmed|name type goals|r]; simpl.
  - now apply step_idsFresh.
  - destruct (project (session a)); [|exact Hs].
    destruct confirmed; simpl; [|exact Hs]. intros q. discriminate.
  - destruct (project (session a)) eqn:Hp; [exact Hs|].
    destruct (isLoading (session a)); [exact Hs|]. simpl.
    unfold handleSubmit.
    destruct (truthy name && truthy type && truthy goals); exact Hs.
  - destruct (creating a); [exact Hs|]. now apply creation_idsFresh.
Qed.

Lemma appRun_documentShape codec env evs :
  forall a,
    sessionDocumentShape (session a) ->
    sessionDocumentShape (session (appRun codec env a evs)).
Proof.
  induction evs as [|ev evs IH]; intros a Hs; [exact Hs|].
  apply IH. now apply dispatch_documentShape.
Qed.

Lemma appRun_idsFresh codec env evs :
  Inj (=) (=) (generateId env) ->
  forall a,
    sessionIdsFresh env (session a) ->
    sessionIdsFresh env (session (appRun codec env a evs)).
Proof.
  intros Hinj. induction evs as [|ev evs IH]; intros a Hs; [exact Hs|].
  apply IH. now apply dispatch_idsFresh.
Qed.

(** X11: Whatever the user and the gateway do after a page load on an empty
    storage, a project the application holds has its progress in
    [0, 100], shows every one of its blockers (none is ever resolved), has
    no task with subtasks, no stakeholders, no resources and an empty
    target date. *)
Theorem reachable_documents_shape (codec : Codec) (env : Env)
    (clock ids : nat) (evs : list AppEvent) (p : Project) :
  project (session (appRun codec env (freshApp clock ids) evs)) = Some p ->
  (0 <= progress p <= 100)%Z /\
  visibleBlockers p = blockers p /\
  Forall (fun t => Task.subtasks t = []) (tasks p) /\
  stakeholders p = [] /\ resources p = [] /\ targetDate (timeline p) = "".
Proof.
  intros Hp.
  assert (Hinit : sessionDocumentShape (session (freshApp clock ids)))
    by (intros q; discriminate).
  destruct (appRun_documentShape codec env evs _ Hinit p Hp)
    as (Hprog & Hb & Ht & Hrest).
  split; [exact Hprog|]. split; [now apply visibleBlockers_all|].
  split; [exact Ht | exact Hrest].
Qed.

(** X12: When [generateId()] never returns the same string twice, then,
    whatever the user and the gateway do after a page load on an empty
    storage, the tasks of the project have pairwise distinct ids and so
    have its blockers. *)
Theorem reachable_ids_distinct (codec : Codec) (env : Env)
    (clock ids : nat) (evs : list AppEvent) (p : Project) :
  Inj (=) (=) (generateId env) ->
  project (session (appRun codec env (freshApp clock ids) evs)) = Some p ->
  NoDup (Task.id <$> tasks p) /\ NoDup (Blocker.id <$> blockers p).
Proof.
  intros Hinj Hp.
  assert (Hinit : sessionIdsFresh env (session (freshApp clock ids)))
    by (intros q; discriminate).
  destruct (appRun_idsFresh codec env evs Hinj _ Hinit p Hp) as [Ht Hb].
  split; [exact (proj1 Ht) | exact (proj1 Hb)].
Qed.

(** The project the demonstration trace ends with: four tasks, two
    blockers. *)
Lemma reachable_documents_shape_witness :
  exists p,
    project (session (appRun demoCodec demoEnv (freshApp 0 0) demoTrace))
      = Some p /\
    length (tasks p) = 4 /\ length (blockers p) = 2 /\
    (0 <= progress p <= 100)%Z /\
    visibleBlockers p = blockers p.
Proof.
  eexists. split; [vm_compute; reflexivity|].
  split; [reflexivity|]. split; [reflexivity|].
  destruct (reachable_documents_shape demoCodec demoEnv 0 0 demoTrace _
              ltac:(vm_compute; reflexivity)) as (Hprog & Hvis & _).
  split; [exact Hprog | exact Hvis].
Defined.

Lemma reachable_ids_distinct_witness :
  Inj (=) (=) (generateId demoEnv) /\
  exists p,
    project (session (appRun demoCodec demoEnv (freshApp 0 0) demoTrace))
      = Some p /\
    Task.id <$> tasks p = ["id_0"; "id_1"; "id_2"; "id_3"] /\
    NoDup (Task.id <$> tasks p) /\ NoDup (Blocker.id <$> blockers p).
Proof.
  split; [exact demoEnv_generateId_inj|].
  eexists. split; [vm_compute; reflexivity|]. split; [reflexivity|].
  exact (reachable_ids_distinct demoCodec demoEnv 0 0 demoTrace _
           demoEnv_generateId_inj ltac:(vm_compute; reflexivity)).
Defined.

(** ** The chat history *)

Lemma request_chat_prefix env s message :
  chatHistory s `prefix_of` chatHistory (handleSendMessage_request env s message)
  /\ length (chatHistory (handleSendMessage_request env s message))
     <= S (length (chatHistory s)).
Proof.
  unfold handleSendMessage_request. destruct (project s); simpl.
  - split; [now apply prefix_app_r|]. rewrite length_app. simpl. lia.
  - split; [reflexivity | lia].
Qed.

Lemma step_chat_prefix env s e :
  chatHistory s `prefix_of` chatHistory (step env s e) /\
  length (chatHistory (step env s e)) <= S (length (chatHistory s)).
Proof.
  assert (Hsame : chatHistory s `prefix_of` chatHistory s /\
                  length (chatHistory s) <= S (length (chatHistory s)))
    by (split; [reflexivity | lia]).
  destruct e as [message|action|taskId|r]; simpl.
  - unfold handleSend. destruct (trim message); [exact Hsame|].
    destruct (isLoading s); simpl; [exact Hsame|].
    apply request_chat_prefix.
  - unfold handleSuggestedSend. destruct (isLoading s); simpl;
      [exact Hsame | apply request_chat_prefix].
  - unfold handleTaskStatusChange.
    destruct (match project s with Some p => _ | None => None end);
      [apply request_chat_prefix | exact Hsame].
  - destruct (inFlight s); [exact Hsame|].
    destruct r as [|upd]; simpl.
    + split; [now apply prefix_app_r|]. rewrite length_app. simpl. lia.
    + destruct (projectUpdater env (idCalls s) (project s) upd). simpl.
      split; [now apply prefix_app_r|]. rewrite length_app. simpl. lia.
Qed.

(** X8: Sends, clicks and gateway answers only ever append to the chat
    history: after any sequence of them the history it started from is
    still there as a prefix, unchanged, and at most one message has been
    added per event. *)
Theorem chat_history_append_only (env : Env) (es : list Event) :
  forall s : Session,
    chatHistory s `prefix_of` chatHistory (run env s es) /\
    length (chatHistory (run env s es)) <= length (chatHistory s) + length es.
Proof.
  induction es as [|e es IH]; intros s; simpl.
  - split; [reflexivity | lia].
  - destruct (step_chat_prefix env s e) as [Hpre Hlen].
    destruct (IH (step env s e)) as [Hpre' Hlen'].
    split; [now transitivity (chatHistory (step env s e)) | lia].
Qed.

(** X9: [chatHistory.slice(-4)], the conversation put into the prompt,
    consists of the last four messages of the history, or of the whole
    history when it is shorter. *)
Theorem recentConversation_last_four (h : list ChatMessage) :
  recentConversation h `suffix_of` h /\
  length (recentConversation h) = Nat.min 4 (length h) /\
  (length h <= 4 -> recentConversation h = h) /\
  (forall older m1 m2 m3 m4,
     h = older ++ [m1; m2; m3; m4] ->
     recentConversation h = [m1; m2; m3; m4]).
Proof.
  unfold recentConversation. split; [apply suffix_drop|].
  split; [rewrite length_drop; lia|]. split.
  - intros Hle. replace (length h - 4) with 0 by lia. reflexivity.
  - intros older m1 m2 m3 m4 ->. rewrite length_app. simpl.
    replace (length older + 4 - 4) with (length older) by lia.
    apply drop_app_length.
Qed.

(** ** Persistence *)

Lemma persist_lookup codec s (store : Storage) key :
  persist codec s store !! key =
    if decide (key = "chatHistory") then
      match chatHistory s with
      | [] => None
      | _ :: _ => Some (stringifyChatHistory codec (chatHistory s))
      end
    else if decide (key = "project") then
      stringifyProject codec <$> project s
    else store !! key.
Proof.
  unfold persist, chatHistoryEffect, projectEffect.
  destruct (decide (key = "chatHistory")) as [-> | Hc].
  - destruct (chatHistory s); [apply lookup_delete_eq | apply lookup_insert_eq].
  - assert (E : forall m : Storage,
               match chatHistory s with
               | [] => delete "chatHistory" m
               | _ :: _ =>
                   <["chatHistory" := stringifyChatHistory codec (chatHistory s)]> m
               end !! key = m !! key).
    { intros m. destruct (chatHistory s);
        [now apply lookup_delete_ne | now apply lookup_insert_ne]. }
    rewrite E. destruct (decide (key = "project")) as [-> | Hp].
    + destruct (project s); simpl;
        [apply lookup_insert_eq | apply lookup_delete_eq].
    + destruct (project s);
        [now apply lookup_insert_ne | now apply lookup_delete_ne].
Qed.

Lemma persist_initial_empty codec clock ids :
  persist codec (initialSession clock ids) ∅ = ∅.
Proof.
  apply map_eq. intros key. rewrite persist_lookup. simpl.
  repeat case_decide; now rewrite ?lookup_empty.
Qed.

Lemma appStep_storage_lookup codec env a ev key :
  localStorage (appStep codec env a ev) !! key =
    if decide (key = "chatHistory") then
      match chatHistory (session (appStep codec env a ev)) with
      | [] => None
      | _ :: _ =>
          Some (stringifyChatHistory codec
                  (chatHistory (session (appStep codec env a ev))))
      end
    else if decide (key = "project") then
      stringifyProject codec <$> project (session (appStep codec env a ev))
    else localStorage (dispatch env a ev) !! key.
Proof. unfold appStep. cbn [localStorage session]. apply persist_lookup. Qed.

Lemma appStep_storageMirrors codec env a ev :
  storageMirrors codec (appStep codec env a ev).
Proof.
  split; rewrite appStep_storage_lookup; now repeat case_decide.
Qed.

Lemma mountedApp_storageMirrors codec clock ids store :
  storageMirrors codec (mountedApp codec clock ids store).
Proof.
  unfold storageMirrors, mountedApp, mount.
  destruct (loadEffect codec (initialSession clock ids) store) as [s1 store1].
  cbn [session localStorage fst snd].
  split; rewrite persist_lookup; now repeat case_decide.
Qed.

(** X13: After a page load, on whatever the storage holds, and after any
    sequence of events, the storage holds under [project] the text of the
    project when there is one and nothing otherwise, and under
    [chatHistory] the text of the chat history when it is not empty and
    nothing otherwise.  A further event leaves every other key with its
    value, except that a confirmed reset removes them all. *)
Theorem storage_mirrors_state (codec : Codec) (env : Env) (clock ids : nat)
    (store : Storage) (evs : list AppEvent) (ev : AppEvent) :
  let a := appRun codec env (mountedApp codec clock ids store) evs in
  storageMirrors codec a /\
  forall key, key <> "project" -> key <> "chatHistory" ->
    localStorage (appStep codec env a ev) !! key =
      match ev, project (session a) with
      | ResetClick true, Some _ => None
      | _, _ => localStorage a !! key
      end.
Proof.
  intros a. split.
  - subst a. generalize (mountedApp_storageMirrors codec clock ids store).
    generalize (mountedApp codec clock ids store).
    induction evs as [|e evs IH]; intros a0 Ha0; [exact Ha0|].
    apply IH, appStep_storageMirrors.
  - intros key Hp Hc. rewrite appStep_storage_lookup.
    destruct (decide (key = "chatHistory")); [contradiction|].
    destruct (decide (key = "project")); [contradiction|].
    destruct ev as [e|[|]|name type goals|r]; simpl; try reflexivity.
    + destruct (project (session a)); [apply lookup_empty | reflexivity].
    + now destruct (project (session a)).
    + destruct (project (session a)); [reflexivity|].
      now destruct (isLoading (session a)).
    + now destruct (creating a).
Qed.

(** X14: A confirmed reset leaves no project, an empty chat history and an
    empty storage, keys of other applications included; it touches
    neither the loading flag nor the pending requests.  A reset that is
    not confirmed leaves the session as it was. *)
Theorem reset_clears_state_and_storage (codec : Codec) (env : Env) (a : App)
    (p : Project) :
  project (session a) = Some p ->
  let a' := appStep codec env a (ResetClick true) in
  project (session a') = None /\
  chatHistory (session a') = [] /\
  localStorage a' = ∅ /\
  isLoading (session a') = isLoading (session a) /\
  inFlight (session a') = inFlight (session a) /\
  session (appStep codec env a (ResetClick false)) = session a.
Proof.
  intros Hp a'. subst a'. unfold appStep. cbn [dispatch]. rewrite Hp.
  cbn [handleReset session localStorage creating].
  cbn [project chatHistory isLoading inFlight setChatHistory setProject].
  split; [reflexivity|]. split; [reflexivity|].
  split; [|repeat split].
  apply map_eq. intros key. rewrite persist_lookup. simpl.
  repeat case_decide; now rewrite ?lookup_empty.
Qed.

Lemma reset_clears_state_and_storage_witness :
  project (session demoApp) = Some demoProject /\
  localStorage demoApp !! "project" = Some "{project:Recipe App}" /\
  localStorage (appStep demoCodec demoEnv demoApp (ResetClick true)) = ∅ /\
  isLoading (session (appStep demoCodec demoEnv demoApp (ResetClick true)))
    = true.
Proof.
  split; [reflexivity|]. split; [reflexivity|].
  destruct (reset_clears_state_and_storage demoCodec demoEnv demoApp
              demoProject eq_refl) as (_ & _ & Hstore & Hload & _).
  split; [exact Hstore | exact Hload].
Defined.

(** X15: A gateway answer that arrives after a confirmed reset does not bring
    the project back, whatever it contains; but its message, the reply or
    the apology, is appended to the emptied chat history, and the next
    render stores that history again under [chatHistory]. *)
Theorem answer_after_reset (codec : Codec) (env : Env) (a : App)
    (p : Project) (n : nat) (r : GatewayResult) :
  project (session a) = Some p ->
  inFlight (session a) = S n ->
  let a' :=
    appRun codec env a [ResetClick true; Conversation (GatewaySettles r)] in
  project (session a') = None /\
  (exists m,
     chatHistory (session a') = [m] /\ sender m = ai /\
     text m = match r with
              | LlmSuccess upd => Update.responseText upd
              | LlmFailure => apologyText
              end) /\
  isLoading (session a') = false /\
  localStorage a' !! "project" = None /\
  localStorage a' !! "chatHistory"
    = Some (stringifyChatHistory codec (chatHistory (session a'))).
Proof.
  intros Hp Hn a'.
  set (a1 := appStep codec env a (ResetClick true)).
  assert (E1 : session a1 = setChatHistory (setProject (session a) None) []).
  { unfold a1, appStep. cbn [session dispatch]. now rewrite Hp. }
  assert (Ea : a' = appStep codec env a1 (Conversation (GatewaySettles r)))
    by reflexivity.
  assert (E2 : session a' =
               handleSendMessage_settle env
                 (setChatHistory (setProject (session a) None) []) r).
  { rewrite Ea. unfold appStep. cbn [session dispatch step]. rewrite E1.
    change (inFlight (setChatHistory (setProject (session a) None) []))
      with (inFlight (session a)).
    now rewrite Hn. }
  assert (Hproj : project (session a') = None).
  { rewrite E2. now destruct r. }
  assert (Hchat : exists m,
             chatHistory (session a') = [m] /\ sender m = ai /\
             text m = match r with
                      | LlmSuccess upd => Update.responseText upd
                      | LlmFailure => apologyText
                      end).
  { rewrite E2. destruct r as [|upd]; simpl; eexists; repeat split. }
  split; [exact Hproj|]. split; [exact Hchat|].
  split; [rewrite E2; now destruct r|].
  pose proof (appStep_storage_lookup codec env a1
                (Conversation (GatewaySettles r)) "project") as H1.
  pose proof (appStep_storage_lookup codec env a1
                (Conversation (GatewaySettles r)) "chatHistory") as H2.
  rewrite <- Ea in H1, H2. rewrite Hproj in H1.
  destruct Hchat as (m & Hm & _). rewrite Hm in H2 |- *.
  split; [exact H1 | exact H2].
Qed.

Lemma answer_after_reset_witness :
  project (session demoApp) = Some demoProject /\
  inFlight (session demoApp) = 1 /\
  project (session (appRun demoCodec demoEnv demoApp
             [ResetClick true;
              Conversation (GatewaySettles (LlmSuccess blockersUpdate))]))
    = None /\
  localStorage (appRun demoCodec demoEnv demoApp
             [ResetClick true;
              Conversation (GatewaySettles (LlmSuccess blockersUpdate))])
    !! "chatHistory" = Some "[chat]".
Proof.
  split; [reflexivity|]. split; [reflexivity|].
  destruct (answer_after_reset demoCodec demoEnv demoApp demoProject 0
              (LlmSuccess blockersUpdate) eq_refl eq_refl)
    as (Hproj & _ & _ & _ & Hchat).
  split; [exact Hproj | exact Hchat].
Defined.

(** ** Loading at mount *)

(** X16: What was stored comes back at the next page load: when the texts of
    the project and of the chat history are non-empty and are parsed back
    to the documents they were made from, mounting the application on the
    storage written for a session gives that session's project and chat
    history, with no request pending and the loading flag off, and leaves
    the storage as it found it. *)
Theorem mount_restores_persisted (codec : Codec) (s : Session)
    (store : Storage) (clock ids : nat) :
  (forall p, project s = Some p ->
     truthy (stringifyProject codec p) = true /\
     parseProject codec (stringifyProject codec p) = Some p) ->
  (chatHistory s <> [] ->
     truthy (stringifyChatHistory codec (chatHistory s)) = true /\
     parseChatHistory codec (stringifyChatHistory codec (chatHistory s))
       = Some (chatHistory s)) ->
  let saved := persist codec s store in
  project (mount codec clock ids saved).1 = project s /\
  chatHistory (mount codec clock ids saved).1 = chatHistory s /\
  isLoading (mount codec clock ids saved).1 = false /\
  inFlight (mount codec clock ids saved).1 = 0 /\
  (mount codec clock ids saved).2 = saved.
Proof.
  intros Hproj Hchat saved.
  assert (Hload : loadEffect codec (initialSession clock ids) saved =
                  (setChatHistory
                     (setProject (initialSession clock ids) (project s))
                     (chatHistory s), saved)).
  { unfold loadEffect, saved. rewrite !persist_lookup. simpl.
    destruct (project s) as [p|] eqn:Hp; simpl.
    - destruct (Hproj p eq_refl) as [Ht Hparse]. rewrite Ht, Hparse. simpl.
      destruct (chatHistory s) as [|m h] eqn:Hh; simpl; [reflexivity|].
      destruct (Hchat ltac:(discriminate)) as [Ht' Hparse'].
      now rewrite Ht', Hparse'.
    - destruct (chatHistory s) as [|m h] eqn:Hh; simpl; [reflexivity|].
      destruct (Hchat ltac:(discriminate)) as [Ht' Hparse'].
      now rewrite Ht', Hparse'. }
  unfold mount. rewrite Hload. simpl.
  repeat (split; [reflexivity|]).
  apply map_eq. intros key. unfold saved. rewrite !persist_lookup. simpl.
  repeat case_decide; reflexivity.
Qed.

Lemma mount_restores_persisted_witness :
  parseProject demoCodec (stringifyProject demoCodec demoProject)
    = Some demoProject /\
  parseChatHistory demoCodec
    (stringifyChatHistory demoCodec (chatHistory demoSession))
    = Some (chatHistory demoSession) /\
  project (mount demoCodec 7 3 (persist demoCodec demoSession ∅)).1
    = Some demoProject /\
  chatHistory (mount demoCodec 7 3 (persist demoCodec demoSession ∅)).1
    = chatHistory demoSession /\
  (mount demoCodec 7 3 (persist demoCodec demoSession ∅)).2
    = persist demoCodec demoSession ∅.
Proof.
  split; [reflexivity|]. split; [reflexivity|].
  assert (H1 : forall p, project demoSession = Some p ->
             truthy (stringifyProject demoCodec p) = true /\
             parseProject demoCodec (stringifyProject demoCodec p) = Some p).
  { intros p [= <-]. split; reflexivity. }
  assert (H2 : chatHistory demoSession <> [] ->
             truthy (stringifyChatHistory demoCodec (chatHistory demoSession))
               = true /\
             parseChatHistory demoCodec
               (stringifyChatHistory demoCodec (chatHistory demoSession))
               = Some (chatHistory demoSession)).
  { intros _. split; reflexivity. }
  destruct (mount_restores_persisted demoCodec demoSession ∅ 7 3 H1 H2)
    as (Hp & Hc & _ & _ & Hstore).
  split; [exact Hp|]. split; [exact Hc | exact Hstore].
Defined.

(** X17: A stored project text that [JSON.parse] rejects: the application
    starts without project and without chat history, even when the stored
    chat history is fine, and the whole storage is emptied. *)
Theorem mount_corrupted_project (codec : Codec) (clock ids : nat)
    (store : Storage) (saved : string) :
  store !! "project" = Some saved ->
  truthy saved = true ->
  parseProject codec saved = None ->
  mount codec clock ids store = (initialSession clock ids, ∅).
Proof.
  intros Hs Ht Hparse. unfold mount, loadEffect, loadProject.
  rewrite Hs, Ht, Hparse. now rewrite !persist_initial_empty.
Qed.

Lemma mount_corrupted_project_witness :
  corruptedProjectStore !! "project" = Some "{project:" /\
  corruptedProjectStore !! "theme" = Some "dark" /\
  mount demoCodec 0 0 corruptedProjectStore = (initialSession 0 0, ∅).
Proof.
  split; [reflexivity|]. split; [reflexivity|].
  exact (mount_corrupted_project demoCodec 0 0 corruptedProjectStore
           "{project:" eq_refl eq_refl eq_refl).
Defined.

(** X18: A stored chat history text that [JSON.parse] rejects, beside a
    project text that is fine: the project has been set by the time the
    exception is caught, so the application starts with that project and
    an empty chat history, and the storage, emptied by the [catch]
    clause, holds the project again after the next render, and nothing
    else. *)
Theorem mount_corrupted_chat_history (codec : Codec) (clock ids : nat)
    (store : Storage) (savedProject savedChatHistory : string)
    (p : Project) :
  store !! "project" = Some savedProject ->
  truthy savedProject = true ->
  parseProject codec savedProject = Some p ->
  store !! "chatHistory" = Some savedChatHistory ->
  truthy savedChatHistory = true ->
  parseChatHistory codec savedChatHistory = None ->
  mount codec clock ids store =
    (setProject (initialSession clock ids) (Some p),
     {["project" := stringifyProject codec p]}).
Proof.
  intros Hs Ht Hparse Hs' Ht' Hparse'.
  unfold mount, loadEffect, loadProject, loadChatHistory.
  rewrite Hs, Ht, Hparse, Hs', Ht', Hparse'.
  rewrite persist_initial_empty. reflexivity.
Qed.

Lemma mount_corrupted_chat_history_witness :
  corruptedChatStore !! "project" = Some "{project:Recipe App}" /\
  corruptedChatStore !! "chatHistory" = Some "[cha" /\
  mount demoCodec 0 0 corruptedChatStore =
    (setProject (initialSession 0 0) (Some demoProject),
     {["project" := "{project:Recipe App}"]}).
Proof.
  split; [reflexivity|]. split; [reflexivity|].
  exact (mount_corrupted_chat_history demoCodec 0 0 corruptedChatStore
           "{project:Recipe App}" "[cha" demoProject
           eq_refl eq_refl eq_refl eq_refl eq_refl eq_refl).
Defined.

(** ** How far one update can change the task list *)

Lemma applyTaskUpdate_length env k l u :
  length (applyTaskUpdate env (k, l) u).2
    <= length l + (if actionIs add u then 1 else 0) /\
  length l
    <= length (applyTaskUpdate env (k, l) u).2
       + (if actionIs remove u then 1 else 0) /\
  k <= (applyTaskUpdate env (k, l) u).1
    <= k + (if actionIs add u then 1 else 0).
Proof.
  unfold applyTaskUpdate, actionIs.
  destruct (TaskUpdate.action u), (existingTaskIndex l u) as [i|] eqn:Hidx;
    simpl; rewrite ?length_app, ?length_alter; simpl; try lia.
  pose proof (existingTaskIndex_lt _ _ _ Hidx) as Hlt.
  rewrite length_delete by now apply lookup_lt_is_Some_2.
  split; [lia|]. split; lia.
Qed.

Lemma fold_applyTaskUpdate_length env us :
  forall k l,
    length (fold_left (applyTaskUpdate env) us (k, l)).2
      <= length l + countAction add us /\
    length l
      <= length (fold_left (applyTaskUpdate env) us (k, l)).2
         + countAction remove us /\
    k <= (fold_left (applyTaskUpdate env) us (k, l)).1
      <= k + countAction add us.
Proof.
  unfold countAction.
  induction us as [|u us IH]; intros k l; cbn [fold_left List.filter].
  - simpl. lia.
  - pose proof (applyTaskUpdate_length env k l u) as Hstep.
    destruct (applyTaskUpdate env (k, l) u) as [k1 l1] eqn:E.
    destruct Hstep as (H1 & H2 & H3). cbn [fst snd] in H1, H2, H3.
    destruct (IH k1 l1) as (I1 & I2 & I3).
    destruct (actionIs add u), (actionIs remove u); simpl length; lia.
Qed.

(** X3: One update lengthens the task list by at most the number of its [add]
    entries and shortens it by at most the number of its [remove] entries,
    and it calls [generateId()] for tasks at most once per [add] entry;
    without entries the list and the id counter are as they were. *)
Theorem task_list_changes_are_bounded (env : Env) (k : nat)
    (prevTasks : list Task.t) (us : option (list TaskUpdate.t)) :
  let entries := default [] us in
  let r := applyTaskUpdates env k prevTasks us in
  length r.2 <= length prevTasks + countAction add entries /\
  length prevTasks <= length r.2 + countAction remove entries /\
  k <= r.1 <= k + countAction add entries /\
  (entries = [] -> r = (k, prevTasks)).
Proof.
  intros entries r. subst entries r. destruct us as [us|]; simpl.
  - destruct (fold_applyTaskUpdate_length env us k prevTasks)
      as (H1 & H2 & H3).
    repeat split; try lia. now intros ->.
  - unfold countAction. simpl. repeat split; lia.
Qed.

(** ** When the two resolution rules agree *)

Lemma findIndex_ext_in {A : Type} (p q : A -> bool) (l : list A) :
  (forall x, x ∈ l -> p x = q x) -> findIndex p l = findIndex q l.
Proof.
  induction l as [|a l IH]; intros H; simpl; [reflexivity|].
  rewrite (H a) by left. rewrite IH; [reflexivity|].
  intros x Hx. apply H. now right.
Qed.

(** X4: The target the code picks is the target of the id-first rule whenever
    the entry's [taskId] is absent or is the id of no task, as for the
    temporary ids of new tasks, and whenever the entry's name is the name
    of no task. *)
Theorem resolution_rules_agree (newTasks : list Task.t) (u : TaskUpdate.t) :
  (forall t, t ∈ newTasks -> TaskUpdate.taskId u <> Some (Task.id t)) \/
  (forall t, t ∈ newTasks -> Task.name t <> TaskUpdate.name u) ->
  existingTaskIndex newTasks u = specResolveTarget newTasks u.
Proof.
  unfold existingTaskIndex, specResolveTarget. intros [Hid | Hname].
  - assert (Hnone : findIndex (idMatches u) newTasks = None).
    { apply findIndex_None. intros t Ht.
      apply not_true_iff_false. rewrite idMatches_true. now apply Hid. }
    rewrite Hnone. apply findIndex_ext_in. intros t Ht.
    unfold matchesUpdate. rewrite findIndex_None in Hnone.
    now rewrite (Hnone t Ht).
  - assert (Hnone : findIndex (nameMatches u) newTasks = None).
    { apply findIndex_None. intros t Ht.
      apply not_true_iff_false. rewrite nameMatches_true. now apply Hname. }
    rewrite Hnone.
    assert (E : findIndex (matchesUpdate u) newTasks
                = findIndex (idMatches u) newTasks).
    { apply findIndex_ext_in. intros t Ht. unfold matchesUpdate.
      rewrite findIndex_None in Hnone. rewrite (Hnone t Ht).
      apply orb_false_r. }
    rewrite E. now destruct (findIndex (idMatches u) newTasks).
Qed.

(** An entry without [taskId] is resolved by name under both rules. *)
Lemma resolution_rules_agree_witness :
  (forall t, t ∈ [taskDesign; taskBuild] ->
     TaskUpdate.taskId patchEntry <> Some (Task.id t)) /\
  existingTaskIndex [taskDesign; taskBuild] patchEntry = Some 0 /\
  specResolveTarget [taskDesign; taskBuild] patchEntry = Some 0.
Proof.
  assert (H : forall t, t ∈ [taskDesign; taskBuild] ->
                TaskUpdate.taskId patchEntry <> Some (Task.id t))
    by (intros t _; discriminate).
  split; [exact H|]. split; [reflexivity|].
  rewrite <- (resolution_rules_agree [taskDesign; taskBuild] patchEntry
                (or_introl H)).
  reflexivity.
Defined.

(** ** A successful turn *)

(** X7: When the gateway answers, the turn leaves the project merged with the
    update by the reducer, the chat history extended by the user's message
    and then by one message of the assistant carrying the gateway's reply,
    the suggested actions replaced by those of the update, and the loading
    flag off; the number of pending requests is what it was before the
    turn. *)
Theorem successful_turn_merges_update (env : Env) (s : Session)
    (message : string) (p : Project) (upd : Update.t) :
  project s = Some p ->
  let s' := handleSendMessage env s message (LlmSuccess upd) in
  project s' = Some (applyUpdate env (idCalls s) p upd).2 /\
  (exists userMessage aiMessage,
     chatHistory s' = chatHistory s ++ [userMessage; aiMessage] /\
     sender userMessage = user /\ text userMessage = message /\
     sender aiMessage = ai /\ text aiMessage = Update.responseText upd) /\
  suggestedActions <$> project s' = Some (Update.suggestedActions upd) /\
  isLoading s' = false /\
  inFlight s' = inFlight s /\
  idCalls s' = (applyUpdate env (idCalls s) p upd).1.
Proof.
  intros Hp s'. subst s'.
  unfold handleSendMessage, handleSendMessage_request. rewrite Hp.
  unfold handleSendMessage_settle, projectUpdater.
  cbn [project chatHistory isLoading inFlight clockReads idCalls].
  pose proof (applyUpdate_fields env (idCalls s) p upd) as (_ & _ & _ & _ & Hsa).
  destruct (applyUpdate env (idCalls s) p upd) as [k' p'].
  cbn [project chatHistory isLoading inFlight clockReads idCalls fst snd] in *.
  split; [reflexivity|]. split.
  - eexists _, _. rewrite <- app_assoc. simpl. repeat split.
  - simpl. rewrite Hsa. repeat split.
Qed.

Lemma successful_turn_merges_update_witness :
  project demoSession = Some demoProject /\
  (progress <$> project (handleSendMessage demoEnv demoSession "done"
                           (LlmSuccess (progressUpdateOf (-15)))))
    = Some 80%Z /\
  isLoading (handleSendMessage demoEnv demoSession "done"
               (LlmSuccess (progressUpdateOf (-15)))) = false.
Proof.
  split; [reflexivity|].
  destruct (successful_turn_merges_update demoEnv demoSession "done"
              demoProject (progressUpdateOf (-15)) eq_refl)
    as (Hp & _ & _ & Hl & _).
  split; [now rewrite Hp | exact Hl].
Defined.

(** ** An update that carries nothing *)

(** X6: An update without task entries, without blockers, without priority
    change and with no progress delta, applied to a project whose progress
    is within [0, 100], replaces the suggested actions and changes nothing
    else; no id is generated. *)
Theorem bare_update_only_replaces_suggestions (env : Env) (k : nat)
    (p : Project) (upd : Update.t) :
  Update.taskUpdates upd = None \/ Update.taskUpdates upd = Some [] ->
  Update.blockers upd = None \/ Update.blockers upd = Some [] ->
  Update.priorityUpdate upd = None ->
  Update.progressUpdate upd = None \/ Update.progressUpdate upd = Some 0%Z ->
  (0 <= progress p <= 100)%Z ->
  applyUpdate env k p upd =
    (k,
     {| projectName := projectName p;
        projectType := projectType p;
        projectGoals := projectGoals p;
        tasks := tasks p;
        progress := progress p;
        priorities := priorities p;
        stakeholders := stakeholders p;
        timeline := timeline p;
        blockers := blockers p;
        resources := resources p;
        suggestedActions := Update.suggestedActions upd |}).
Proof.
  intros Ht Hb Hpr Hd Hrange. unfold applyUpdate.
  assert (Et : applyTaskUpdates env k (tasks p) (Update.taskUpdates upd)
               = (k, tasks p)) by (destruct Ht as [-> | ->]; reflexivity).
  assert (Eb : applyBlockers env k (blockers p) (Update.blockers upd)
               = (k, blockers p)) by (destruct Hb as [-> | ->]; reflexivity).
  assert (Ed : numOr0 (Update.progressUpdate upd) = 0%Z)
    by (destruct Hd as [-> | ->]; reflexivity).
  rewrite Et, Eb, Hpr, Ed. do 2 f_equal. lia.
Qed.

Lemma bare_update_only_replaces_suggestions_witness :
  (0 <= progress demoProject <= 100)%Z /\
  tasks (applyUpdate demoEnv 0 demoProject emptyUpdate).2
    = tasks demoProject /\
  suggestedActions (applyUpdate demoEnv 0 demoProject emptyUpdate).2 = [].
Proof.
  assert (Hr : (0 <= progress demoProject <= 100)%Z) by (simpl; lia).
  split; [exact Hr|].
  rewrite (bare_update_only_replaces_suggestions demoEnv 0 demoProject
             emptyUpdate (or_introl eq_refl) (or_introl eq_refl) eq_refl
             (or_introl eq_refl) Hr).
  split; reflexivity.
Defined.

(** A page load on an empty storage gives the fresh application. *)
Lemma mountedApp_empty codec clock ids :
  mountedApp codec clock ids ∅ = freshApp clock ids.
Proof.
  unfold mountedApp, mount, loadEffect, freshApp.
  rewrite !lookup_empty. cbn [loadProject loadChatHistory fst snd].
  now rewrite !persist_initial_empty.
Qed.
